(** * Interview Copilot front end: audio worklet and session handlers

    A shallow embedding of the browser side of the speech-to-text relay:

    - [AudioProcessor]: the audio worklet ([audio-processor.js]) that
      collects Float32 samples into frames of [bufferSize] samples and posts
      each full frame as signed 16-bit PCM;
    - [InlineAudioProcessor]: the earlier worklet that converts every input
      block in place;
    - [App]: the handlers installed by [start()] in [App.jsx]:
      [ws.onopen], [ws.onmessage] and [proc.port.onmessage], with the React
      state they update ([lines], [currentSummary]).

    Handlers run to completion one after the other on the event loop, and
    React applies functional state updates in the order they were queued,
    so every handler is a function from the state before to the state
    after. *)

From Stdlib Require Import ZArith QArith Lia.
From stdpp Require Import gmap strings list.

Set Warnings "-register-all".

Local Open Scope string_scope.
Local Open Scope list_scope.
Local Open Scope nat_scope.

(** ** JavaScript numbers *)

(** The numbers the worklet computes with.  A Float32 sample is NaN, an
    infinity or a dyadic rational with a 24-bit significand; the worklet
    only compares such a value with -1, 0 and 1 and multiplies it, once
    clamped to [-1, 1], by [0x8000] or [0x7FFF].  Both products need at
    most 39 significant bits, so binary64 computes them exactly, and the
    finite values are modelled by the rationals they denote.  The two
    zeros behave alike here and are both [Fin 0]. *)
Module JSNumber.

Inductive number : Type :=
| NaN
| PosInf
| NegInf
| Fin (q : Q).

(** [Math.min(a, b)] *)
Definition Math_min (a b : number) : number :=
  match a, b with
  | NaN, _ | _, NaN => NaN
  | NegInf, _ | _, NegInf => NegInf
  | PosInf, x | x, PosInf => x
  | Fin p, Fin q => if Qle_bool p q then Fin p else Fin q
  end.

(** [Math.max(a, b)] *)
Definition Math_max (a b : number) : number :=
  match a, b with
  | NaN, _ | _, NaN => NaN
  | PosInf, _ | _, PosInf => PosInf
  | NegInf, x | x, NegInf => x
  | Fin p, Fin q => if Qle_bool p q then Fin q else Fin p
  end.

(** [a < b] *)
Definition lt (a b : number) : bool :=
  match a, b with
  | NaN, _ | _, NaN => false
  | _, NegInf => false
  | NegInf, _ => true
  | PosInf, _ => false
  | Fin _, PosInf => true
  | Fin p, Fin q => negb (Qle_bool q p)
  end.

(** An infinity times a finite factor: NaN at zero, else by the sign. *)
Definition scale_inf (positive : bool) (q : Q) : number :=
  if Qeq_bool q 0 then NaN
  else if Qle_bool 0 q then (if positive then PosInf else NegInf)
  else (if positive then NegInf else PosInf).

(** [a * b] *)
Definition mul (a b : number) : number :=
  match a, b with
  | NaN, _ | _, NaN => NaN
  | Fin p, Fin q => Fin (p * q)
  | PosInf, Fin q | Fin q, PosInf => scale_inf true q
  | NegInf, Fin q | Fin q, NegInf => scale_inf false q
  | PosInf, PosInf | NegInf, NegInf => PosInf
  | PosInf, NegInf | NegInf, PosInf => NegInf
  end.

(** Rounding toward zero. *)
Definition trunc (q : Q) : Z := Z.quot (Qnum q) (Zpos (Qden q)).

(** Reduction modulo 2^16 into the signed range. *)
Definition wrap16 (z : Z) : Z :=
  let m := (z mod 65536)%Z in
  if (32768 <=? m)%Z then (m - 65536)%Z else m.

(** The conversion applied by a store into an [Int16Array]. *)
Definition ToInt16 (n : number) : Z :=
  match n with
  | Fin q => wrap16 (trunc q)
  | NaN | PosInf | NegInf => 0%Z
  end.

End JSNumber.

(** ** JavaScript values carried by messages *)

(** Parsed JSON, plus the [ArrayBuffer] of PCM samples that the worklet
    hands over.  An object is a finite map from property names to values;
    reading a property that is absent gives [undefined], here [None]. *)
Inductive value : Type :=
| VNull
| VBool (b : bool)
| VNum (q : Q)
| VStr (s : string)
| VArr (items : list value)
| VObj (fields : gmap string value)
| VBuffer (pcm : list Z).

Abbreviation obj := (gmap string value).

(** Truthiness of the result of a property read. *)
Definition truthy (v : option value) : bool :=
  match v with
  | None => false
  | Some VNull => false
  | Some (VBool b) => b
  | Some (VNum q) => negb (Qeq_bool q 0)
  | Some (VStr s) => negb (String.eqb s "")
  | Some (VArr _) | Some (VObj _) | Some (VBuffer _) => true
  end.

(** [o.type === t] for a string literal [t]. *)
Definition type_is (o : obj) (t : string) : bool :=
  match o !! "type" with
  | Some (VStr s) => String.eqb s t
  | _ => false
  end.

(** ** The buffering worklet ([audio-processor.js]) *)
Module AudioProcessor.
Import JSNumber.

(** The fields set by the constructor. *)
Record t : Type := {
  bufferSize : nat;
  buffer : list number;
  bufferIndex : nat
}.

(** The object passed to [this.port.postMessage]. *)
Record message : Type := {
  type : string;
  source : string;
  audio : list Z
}.

(** [constructor()] *)
Definition new : t :=
  {| bufferSize := 4096;
     buffer := replicate 4096 (Fin 0);
     bufferIndex := 0 |}.

(** The body of the loop of [convertTo16BitPCM] for one sample. *)
Definition pcm_sample (x : number) : Z :=
  let s := Math_max (Fin (-1)) (Math_min (Fin 1) x) in
  ToInt16 (if lt s (Fin 0) then mul s (Fin 32768) else mul s (Fin 32767)).

(** [convertTo16BitPCM(float32Array)]: a fresh [Int16Array] of the same
    length, every index written once; its buffer is returned. *)
Definition convertTo16BitPCM (float32Array : list number) : list Z :=
  map pcm_sample float32Array.

(** One iteration of the fill loop of [process]: the state and the
    messages posted so far, before and after the sample [x]. *)
Definition fill (src : string) (acc : t * list message) (x : number)
  : t * list message :=
  let this := acc.1 in
  let buf := <[bufferIndex this := x]> (buffer this) in
  let idx := S (bufferIndex this) in
  if idx =? bufferSize this then
    ({| bufferSize := bufferSize this; buffer := buf; bufferIndex := 0 |},
     acc.2 ++ [{| type := "audio"; source := src;
                  audio := convertTo16BitPCM buf |}])
  else
    ({| bufferSize := bufferSize this; buffer := buf; bufferIndex := idx |},
     acc.2).

(** [process(inputs, outputs)]: [inputs] is a list of inputs, an input a
    list of channels, a channel a [Float32Array].  Returns the state after
    the call and the messages posted during it. *)
Definition process (this : t) (inputs : list (list (list number)))
  : t * list message :=
  match inputs with
  | [] => (this, [])
  | input :: _ =>
      match input with
      | [] => (this, [])
      | inputChannel :: _ =>
          let src :=
            if 0 <? length inputChannel then "mic" else "display" in
          fold_left (fill src) inputChannel (this, [])
      end
  end.

(** Successive calls of [process], one per render quantum. *)
Definition run (this : t) (calls : list (list (list (list number))))
  : t * list message :=
  fold_left
    (fun acc inputs =>
       let r := process acc.1 inputs in (r.1, acc.2 ++ r.2))
    calls (this, []).

(** The samples a call ingests: those of the first channel of the first
    input, when there is one. *)
Definition ingested (inputs : list (list (list number))) : list number :=
  match inputs with
  | (inputChannel :: _) :: _ => inputChannel
  | _ => []
  end.

End AudioProcessor.

(** ** The converting worklet of the earlier version *)
Module InlineAudioProcessor.
Import JSNumber.

(** [process(inputs, outputs, parameters)]: the PCM buffers posted. *)
Definition process (inputs : list (list (list number))) : list (list Z) :=
  match inputs with
  | [] => []
  | input :: _ =>
      match input with
      | [] => []
      | inputChannel :: _ =>
          if length inputChannel =? 0 then []
          else
            [map (fun x =>
                    let s := Math_max (Fin (-1)) (Math_min (Fin 1) x) in
                    ToInt16 (if lt s (Fin 0) then mul s (Fin 32768)
                             else mul s (Fin 32767)))
                 inputChannel]
      end
  end.

End InlineAudioProcessor.

(** ** The session handlers of [App.jsx] *)
Module App.

(** The React state the message handler updates: [lines] starts as the
    empty array and [currentSummary] as [null]. *)
Record state : Type := {
  lines : list obj;
  currentSummary : option obj
}.

Definition initial : state := {| lines := []; currentSummary := None |}.

(** The [speakers] state captured by [start()]. *)
Record speakers : Type := {
  panelist : string;
  candidate : string
}.

(** The socket as the handlers see it: its [readyState] and the messages
    sent, oldest first, each as the JSON value that the text handed to
    [ws.send] denotes. *)
Record websocket : Type := {
  readyState : nat;
  sent : list obj
}.

(** [line => line.isFinal] *)
Definition isFinal (line : obj) : bool := truthy (line !! "isFinal").

(** The updater queued for an interim result.  [prev[prev.length - 1]] is
    [undefined] on the empty array, where the index is -1. *)
Definition interim (data : obj) (prev : list obj) : list obj :=
  match prev !! (length prev - 1) with
  | Some lastLine =>
      if negb (isFinal lastLine) then <[length prev - 1 := data]> prev
      else prev ++ [data]
  | None => prev ++ [data]
  end.

(** The updater queued for a final result. *)
Definition final (data : obj) (prev : list obj) : list obj :=
  List.filter isFinal prev ++ [data].

(** [ws.onmessage], for a message whose text parses to the object
    [data].  A [setLines] or [setCurrentSummary] call is the update of the
    corresponding field.  (A text that parses to a number, a string, a
    boolean or an array has no [type] property and, like an object of
    another type, changes nothing; [null] makes the handler throw before
    any update.) *)
Definition onmessage (st : state) (data : obj) : state :=
  if type_is data "summary" then
    {| lines := lines st; currentSummary := Some data |}
  else if type_is data "transcript" then
    if truthy (data !! "is_final") then
      {| lines := final data (lines st);
         currentSummary := currentSummary st |}
    else
      {| lines := interim data (lines st);
         currentSummary := currentSummary st |}
  else st.

(** The messages of a session, handled in the order received. *)
Definition receive (st : state) (msgs : list obj) : state :=
  fold_left onmessage msgs st.

(** What [JSON.stringify] writes for a property value of the messages
    the handlers build: a string, or an object of strings, is written so
    that it reads back as itself; an [ArrayBuffer] has no enumerable
    property of its own and is written as the empty object. *)
Definition stringified (v : value) : value :=
  match v with
  | VBuffer _ => VObj ∅
  | _ => v
  end.

(** The JSON value denoted by [JSON.stringify(message)]. *)
Definition JSON_stringify (message : obj) : obj := stringified <$> message.

(** [ws.onopen].  The message holds strings only, so its text denotes
    the object as written here. *)
Definition onopen (sp : speakers) (ws : websocket) : websocket :=
  {| readyState := readyState ws;
     sent := sent ws ++
       [ {[ "type" := VStr "setup";
            "speakers" := VObj {[ "panelist" := VStr (panelist sp);
                                  "candidate" := VStr (candidate sp) ]} ]} ] |}.

(** [proc.port.onmessage], for an event whose [data] is the object the
    worklet posted. *)
Definition port_onmessage (ws : websocket) (data : AudioProcessor.message)
  : websocket :=
  if readyState ws =? 1 then
    {| readyState := readyState ws;
       sent := sent ws ++
         [ JSON_stringify
             {[ "type" := VStr "audio";
                "source" := VStr (AudioProcessor.source data);
                "data" := VBuffer (AudioProcessor.audio data) ]} ] |}
  else ws.

(** What happens to the socket between two handler runs: the browser
    moves it to another [readyState], or the worklet delivers a frame. *)
Inductive event : Type :=
| ReadyState (n : nat)
| Frame (data : AudioProcessor.message).

Definition step (ws : websocket) (e : event) : websocket :=
  match e with
  | ReadyState n => {| readyState := n; sent := sent ws |}
  | Frame data => port_onmessage ws data
  end.

Definition steps (ws : websocket) (es : list event) : websocket :=
  fold_left step es ws.

End App.

(** ** Messages used in the examples *)

(** A recognition result that carries its finality flag under both
    property names the handler reads: [is_final], on which it branches,
    and [isFinal], which it reads from the stored lines. *)
Definition result (flag : bool) (text : string) : obj :=
  {[ "type" := VStr "transcript"; "is_final" := VBool flag;
     "isFinal" := VBool flag; "text" := VStr text ]}.

(** A recognition result that carries the flag as [is_final] only. *)
Definition bare_result (flag : bool) (text : string) : obj :=
  {[ "type" := VStr "transcript"; "is_final" := VBool flag;
     "text" := VStr text ]}.

(** A summary event. *)
Definition summary (text : string) : obj :=
  {[ "type" := VStr "summary"; "text" := VStr text;
     "timestamp" := VStr "10:00:30" ]}.

(** ** Predicates and reference functions used in the statements *)
Section Vocabulary.
Import JSNumber AudioProcessor App.

(** Every line but possibly the last one is final. *)
Definition settled (prev : list obj) : Prop :=
  ∃ p tl, prev = p ++ tl ∧ Forall (λ l, isFinal l = true) p ∧ length tl ≤ 1.

(** The transcript messages sorted by the [isFinal] property, which is
    what the handler reads back from the stored lines; the [is_final]
    property, on which the handler branches, is left free. *)
Definition interim_result (data : obj) : Prop :=
  type_is data "transcript" = true ∧ isFinal data = false.

Definition final_result (data : obj) : Prop :=
  type_is data "transcript" = true ∧ isFinal data = true.

(** The open interim segment of a transcript: its last line, when that
    line is not final. *)
Definition open_interim (prev : list obj) : option obj :=
  match last prev with
  | Some l => if isFinal l then None else Some l
  | None => None
  end.

(** The transcript without its open interim segment. *)
Definition without_open (prev : list obj) : list obj :=
  match open_interim prev with
  | Some _ => take (length prev - 1) prev
  | None => prev
  end.

(** The clamp of a finite sample to [-1, 1]. *)
Definition clamp (q : Q) : Q :=
  if Qle_bool 1 q then 1%Q else if Qle_bool (-1) q then q else (-1)%Q.

(** The conversion as the interface describes it: clip to [-1, 1], scale
    the negative half by [0x8000] and the other half by [0x7FFF], drop the
    fraction.  No reduction modulo 2^16 takes place. *)
Definition pcm_spec (x : number) : Z :=
  match x with
  | NaN => 0%Z
  | PosInf => 32767%Z
  | NegInf => (-32768)%Z
  | Fin q =>
      let c := clamp q in
      if negb (Qle_bool 0 c) then trunc (c * 32768) else trunc (c * 32767)
  end.

(** What a worklet state and the messages posted so far owe to the samples
    ingested so far: the samples are, in order, the frames already posted
    followed by the filled part of the buffer. *)
Definition framed (size : nat) (samples : list number)
    (acc : t * list message) : Prop :=
  bufferSize acc.1 = size
  ∧ length (buffer acc.1) = size
  ∧ bufferIndex acc.1 < size
  ∧ ∃ frames,
      samples = concat frames ++ take (bufferIndex acc.1) (buffer acc.1)
      ∧ Forall (λ f, length f = size) frames
      ∧ map audio acc.2 = map convertTo16BitPCM frames.

(** What [proc.port.onmessage] sends for a posted frame: the type, the
    source tag of the frame, and the empty object that the serialisation
    leaves of the PCM buffer. *)
Definition audio_message (data : AudioProcessor.message) : obj :=
  {[ "type" := VStr "audio";
     "source" := VStr (AudioProcessor.source data);
     "data" := VObj ∅ ]}.


(** The claim that the setup message carries the whole session
    configuration: the type tag, the speaker labels, and a further
    property holding the summarization interval, be it a property of the
    message or one of its [speakers] object besides the two names. *)
Definition carries_configuration (msg : obj) : Prop :=
  msg !! "type" = Some (VStr "setup")
  ∧ is_Some (msg !! "speakers")
  ∧ ((∃ k, k ≠ "type" ∧ k ≠ "speakers" ∧ is_Some (msg !! k))
     ∨ (∃ o k, msg !! "speakers" = Some (VObj o)
               ∧ k ≠ "panelist" ∧ k ≠ "candidate" ∧ is_Some (o !! k))).

End Vocabulary.

(** ** The session life cycle of [App.jsx] *)
Module Session.
Import App.

(** How the calls of [start()] that can fail turn out: the two media
    requests, and the [try] block that sets up the worklet and the
    socket, which stops at the first call that throws. *)
Inductive display_result : Type :=
| DisplayRejected
| DisplayWithoutAudio
| DisplayWithAudio.

Inductive setup_result : Type :=
| AddModuleRejected
| NodeThrows
| SocketThrows
| SetupDone.

Record environment : Type := {
  getUserMedia : bool;
  getDisplayMedia : display_result;
  setup : setup_result
}.

(** The tracks of a media stream: never obtained, running, or stopped. *)
Inductive tracks : Type :=
| NoTracks
| Live
| Stopped.

(** The nodes [start()] connects to the mixer. *)
Inductive source : Type :=
| micSource
| displaySource.

(** What [start()] leaves behind: the alerts shown, the tracks of the two
    streams, the sources connected to the mixer, whether [procRef.current]
    was set, and [wsRef.current]. *)
Record started : Type := {
  alerts : list string;
  micTracks : tracks;
  displayTracks : tracks;
  mixer : list source;
  procRef : bool;
  wsRef : option websocket
}.

(** [start()].  [micStream] and [displayStream] are the two local
    variables, [true] when they hold a stream; a display stream without
    an audio track is stopped at once and the variable reset to [null].
    A new socket is in state CONNECTING with nothing sent. *)
Definition start (env : environment) : started :=
  let micStream := getUserMedia env in
  let displayStream :=
    match getDisplayMedia env with
    | DisplayWithAudio => true
    | DisplayRejected | DisplayWithoutAudio => false
    end in
  let shown :=
    (if micStream then []
     else ["Could not access microphone. Transcription might be limited."])
    ++ match getDisplayMedia env with
       | DisplayRejected =>
           ["Could not access display media. Make sure you allow screen recording."]
       | DisplayWithoutAudio =>
           ["Please tick 'Share tab audio' before clicking Share."]
       | DisplayWithAudio => []
       end in
  let shared :=
    match getDisplayMedia env with
    | DisplayRejected => NoTracks
    | DisplayWithoutAudio => Stopped
    | DisplayWithAudio => Live
    end in
  if negb micStream && negb displayStream then
    {| alerts := shown; micTracks := NoTracks; displayTracks := shared;
       mixer := []; procRef := false; wsRef := None |}
  else
    let connected :=
      (if micStream then [micSource] else [])
      ++ (if displayStream then [displaySource] else []) in
    let caught (proc : bool) :=
      {| alerts := shown;
         micTracks := if micStream then Stopped else NoTracks;
         displayTracks := if displayStream then Stopped else shared;
         mixer := connected; procRef := proc; wsRef := None |} in
    match setup env with
    | AddModuleRejected | NodeThrows => caught false
    | SocketThrows => caught true
    | SetupDone =>
        {| alerts := shown;
           micTracks := if micStream then Live else NoTracks;
           displayTracks := shared;
           mixer := connected; procRef := true;
           wsRef := Some {| readyState := 0; sent := [] |} |}
    end.

(** [ws.close()]: nothing on a socket that is closing or closed, else the
    socket starts closing. *)
Definition close (ws : websocket) : websocket :=
  if (readyState ws =? 2) || (readyState ws =? 3) then ws
  else {| readyState := 2; sent := sent ws |}.

(** [stop()].  [procRef.current.disconnect()] removes the outgoing
    connections of the worklet node, and [start()] makes none. *)
Definition stop (s : started) : started :=
  {| alerts := alerts s; micTracks := micTracks s;
     displayTracks := displayTracks s; mixer := mixer s;
     procRef := procRef s; wsRef := close <$> wsRef s |}.

(** The click handler of the Start Interview button of the setup form:
    whether the form is still shown, the alert raised, and what [start()]
    left behind when it ran. *)
Record clicked : Type := {
  showSetup : bool;
  alert : option string;
  session : option started
}.

Definition onClick (env : environment) (sp : speakers) : clicked :=
  if String.eqb (panelist sp) "" || String.eqb (candidate sp) "" then
    {| showSetup := true;
       alert := Some "Please enter both panelist and candidate names";
       session := None |}
  else
    {| showSetup := false; alert := None; session := Some (start env) |}.

(** What reaches the handlers of the socket of a session: the browser
    opens it (and runs [ws.onopen]), starts closing it or closes it, or
    the worklet delivers a frame to [proc.port.onmessage]. *)
Inductive socket_event : Type :=
| Opened
| Closing
| Closed
| Posted (data : AudioProcessor.message).

Definition handle (sp : speakers) (ws : websocket) (e : socket_event)
  : websocket :=
  match e with
  | Opened => onopen sp {| readyState := 1; sent := sent ws |}
  | Closing => {| readyState := 2; sent := sent ws |}
  | Closed => {| readyState := 3; sent := sent ws |}
  | Posted data => port_onmessage ws data
  end.

Definition handle_all (sp : speakers) (ws : websocket)
    (es : list socket_event) : websocket :=
  fold_left (handle sp) es ws.

(** The separator ['\n']. *)
Definition line_feed : Ascii.ascii := Ascii.ascii_of_nat 10.

(** [text.split('\n')].  A line feed is one byte of the text and no part
    of a longer character. *)
Fixpoint split_newline (text : string) : list string :=
  match text with
  | EmptyString => [EmptyString]
  | String c rest =>
      if Ascii.eqb c line_feed then EmptyString :: split_newline rest
      else match split_newline rest with
           | first :: others => String c first :: others
           | [] => [String c EmptyString]
           end
  end.

(** The summary panel the component returns: the waiting notice, the
    time stamp and the paragraphs of the summary, or the [TypeError]
    thrown when [currentSummary.text] has no [split] to call. *)
Inductive panel : Type :=
| Waiting
| Summary (timestamp : option value) (paragraphs : list string)
| TypeError.

Definition summary_panel (currentSummary : option obj) : panel :=
  match currentSummary with
  | None => Waiting
  | Some s =>
      match s !! "text" with
      | Some (VStr text) => Summary (s !! "timestamp") (split_newline text)
      | _ => TypeError
      end
  end.

End Session.

(** ** Further reference functions *)
Section MoreVocabulary.
Import JSNumber AudioProcessor App Session.

(** The buffers the converting worklet posts over successive calls. *)
Definition inline_run (calls : list (list (list (list number))))
  : list (list Z) :=
  flat_map InlineAudioProcessor.process calls.

(** The transcript messages among the messages received. *)
Definition transcripts (msgs : list obj) : list obj :=
  List.filter (λ d, type_is d "transcript") msgs.

(** The summary events among the messages received. *)
Definition summaries (msgs : list obj) : list obj :=
  List.filter (λ d, type_is d "summary") msgs.

(** The setup message of a session. *)
Definition setup_message (sp : speakers) : obj :=
  {[ "type" := VStr "setup";
     "speakers" := VObj {[ "panelist" := VStr (panelist sp);
                           "candidate" := VStr (candidate sp) ]} ]}.

(** The paragraphs of a text put together again. *)
Definition join_newline (paragraphs : list string) : string :=
  String.concat (String line_feed EmptyString) paragraphs.

(** The number of line feeds of a text. *)
Fixpoint newlines (text : string) : nat :=
  match text with
  | EmptyString => 0
  | String c rest =>
      (if Ascii.eqb c line_feed then 1 else 0) + newlines rest
  end.

End MoreVocabulary.

(** * Properties of the message handler *)
Section Transcript.
Import App.

Lemma interim_nil data : interim data [] = [data].
Proof. reflexivity. Qed.

Lemma interim_snoc data p l :
  interim data (p ++ [l]) = if isFinal l then p ++ [l; data] else p ++ [data].
Proof.
  unfold interim. rewrite length_app. simpl.
  replace (length p + 1 - 1) with (length p + 0) by lia.
  rewrite Nat.add_0_r at 1. rewrite list_lookup_middle by done.
  destruct (isFinal l); simpl.
  - by rewrite <- app_assoc.
  - by rewrite insert_app_r.
Qed.

Lemma filter_isFinal_all p :
  Forall (λ l, isFinal l = true) p → List.filter isFinal p = p.
Proof.
  induction 1 as [|l p Hl _ IH]; simpl; [done|]. by rewrite Hl, IH.
Qed.

Lemma filter_isFinal_Forall prev :
  Forall (λ l, isFinal l = true) (List.filter isFinal prev).
Proof.
  induction prev as [|l prev IH]; simpl; [constructor|].
  destruct (isFinal l) eqn:E; [by constructor|done].
Qed.

Lemma filter_open_none p :
  Forall (λ l, isFinal l = true) p →
  List.filter (λ l, negb (isFinal l)) p = [].
Proof.
  induction 1 as [|l p Hl _ IH]; simpl; [done|]. by rewrite Hl.
Qed.

Lemma final_settled data prev : settled (final data prev).
Proof.
  exists (List.filter isFinal prev), [data].
  split; [done|]. split; [apply filter_isFinal_Forall|simpl; lia].
Qed.

Lemma interim_settled data prev : settled prev → settled (interim data prev).
Proof.
  intros (p & tl & -> & Hp & Htl).
  destruct tl as [|l [|? ?]]; simpl in Htl; [| |lia].
  - rewrite app_nil_r.
    destruct p as [|x p'] using rev_ind.
    + exists [], [data]. rewrite interim_nil.
      by repeat split; [constructor|simpl; lia].
    + rewrite interim_snoc.
      apply Forall_app in Hp as Hp'. destruct Hp' as [_ Hx].
      inversion Hx as [|? ? Hfx _]; subst. rewrite Hfx.
      exists (p' ++ [x]), [data].
      rewrite <- app_assoc. by repeat split; [|simpl; lia].
  - rewrite interim_snoc. destruct (isFinal l) eqn:El.
    + exists (p ++ [l]), [data].
      rewrite <- app_assoc. split; [done|].
      split; [|simpl; lia]. apply Forall_app. split; [done|].
      by repeat constructor.
    + exists p, [data]. by repeat split; [|simpl; lia].
Qed.

Lemma onmessage_settled st data :
  settled (lines st) → settled (lines (onmessage st data)).
Proof.
  intros H. unfold onmessage.
  destruct (type_is data "summary"); [done|].
  destruct (type_is data "transcript"); [|done].
  destruct (truthy (data !! "is_final")); simpl.
  - apply final_settled.
  - by apply interim_settled.
Qed.

Lemma receive_settled msgs st :
  settled (lines st) → settled (lines (receive st msgs)).
Proof.
  revert st. induction msgs as [|d msgs IH]; intros st H; simpl; [done|].
  apply IH. by apply onmessage_settled.
Qed.

Lemma settled_open_count prev :
  settled prev → length (List.filter (λ l, negb (isFinal l)) prev) ≤ 1.
Proof.
  intros (p & tl & -> & Hp & Htl).
  rewrite List.filter_app, filter_open_none by done. simpl.
  etrans; [apply List.filter_length_le|done].
Qed.

(** Claim C2.  At most one transcript line is open at any time: from the
    empty list, after any sequence of messages has been handled, at most
    one entry of [lines] has a falsy [isFinal], and an open entry, when
    there is one, is the last.  Every handling step preserves this. *)
Theorem C2_at_most_one_open_line (msgs : list obj) :
  length (List.filter (λ l, negb (isFinal l))
            (lines (receive initial msgs))) ≤ 1
  ∧ settled (lines (receive initial msgs))
  ∧ (∀ st data,
       settled (lines st) →
       settled (lines (onmessage st data))
       ∧ length (List.filter (λ l, negb (isFinal l))
                   (lines (onmessage st data))) ≤ 1).
Proof.
  assert (settled (lines (receive initial msgs))) as H.
  { apply receive_settled. exists [], [].
    by repeat split; [constructor|simpl; lia]. }
  split_and!; [by apply settled_open_count|done|].
  intros st data Hs. apply (onmessage_settled st data) in Hs.
  split; [done|by apply settled_open_count].
Qed.

Lemma filter_isFinal_idemp prev :
  List.filter isFinal (List.filter isFinal prev) = List.filter isFinal prev.
Proof. apply filter_isFinal_all, filter_isFinal_Forall. Qed.

Lemma final_finals data prev :
  List.filter isFinal (final data prev)
  = List.filter isFinal prev ++ List.filter isFinal [data].
Proof. unfold final. by rewrite List.filter_app, filter_isFinal_idemp. Qed.

Lemma interim_finals data prev :
  List.filter isFinal (interim data prev)
  = List.filter isFinal prev ++ List.filter isFinal [data].
Proof.
  destruct prev as [|l p _] using rev_ind; [done|].
  rewrite interim_snoc. destruct (isFinal l) eqn:El.
  - replace (p ++ [l; data]) with ((p ++ [l]) ++ [data])
      by by rewrite <- app_assoc.
    by rewrite List.filter_app.
  - rewrite !List.filter_app. simpl. by rewrite El, app_nil_r.
Qed.

Lemma onmessage_finals st data :
  List.filter isFinal (lines st)
    `prefix_of` List.filter isFinal (lines (onmessage st data)).
Proof.
  unfold onmessage.
  destruct (type_is data "summary"); [done|].
  destruct (type_is data "transcript"); [|done].
  destruct (truthy (data !! "is_final")); simpl.
  - rewrite final_finals. by apply prefix_app_r.
  - rewrite interim_finals. by apply prefix_app_r.
Qed.

(** The lines with a truthy [isFinal] are never removed, replaced or
    reordered: those of [lines] before a message is handled are, unchanged
    and in the same order, the first ones after it; and so after any
    further sequence of messages. *)
Lemma isFinal_lines_are_kept (st : state) (data : obj) (msgs : list obj) :
  List.filter isFinal (lines st)
    `prefix_of` List.filter isFinal (lines (onmessage st data))
  ∧ List.filter isFinal (lines st)
    `prefix_of` List.filter isFinal (lines (receive st msgs)).
Proof.
  split; [apply onmessage_finals|].
  revert st. induction msgs as [|d msgs IH]; intros st; simpl; [done|].
  etrans; [apply onmessage_finals|apply IH].
Qed.

(** Claim C3, on results that the handler treats as final by their
    [is_final] and that carry no [isFinal].  The final branch appends the
    result as it came, and the handler reads the finality of a stored
    line from [line.isFinal]: the line appended for the final result
    "One." is dropped by the filter of the next final result, and is
    overwritten by the next interim result. *)
Theorem C3_appended_final_line_is_not_kept :
  lines (receive initial [bare_result true "One."])
  = [bare_result true "One."]
  ∧ lines (receive initial [bare_result true "One."; bare_result true "Two."])
    = [bare_result true "Two."]
  ∧ lines (receive initial [bare_result true "One."; bare_result false "Tw"])
    = [bare_result false "Tw"]
  ∧ lines (receive initial
             [bare_result true "One."; bare_result false "Tw";
              bare_result true "Two."; bare_result true "Three."])
    = [bare_result true "Three."].
Proof. split_and!; reflexivity. Qed.

Lemma type_is_transcript_not_summary data :
  type_is data "transcript" = true → type_is data "summary" = false.
Proof.
  unfold type_is. destruct (data !! "type") as [[]|]; try done.
  intros ->%String.eqb_eq. done.
Qed.

(** Claim C4.  An interim result that arrives while an interim line is
    open takes the place of that line, in every state whose last line is
    open: the number of lines is unchanged, the lines before the last are
    unchanged, and the last line is the new result, still open. *)
Theorem C4_interim_replaces_open_line
    (st : state) (data lastLine : obj) :
  interim_result data →
  truthy (data !! "is_final") = false →
  open_interim (lines st) = Some lastLine →
  length (lines (onmessage st data)) = length (lines st)
  ∧ lines (onmessage st data)
    = take (length (lines st) - 1) (lines st) ++ [data]
  ∧ open_interim (lines (onmessage st data)) = Some data.
Proof.
  intros [Ht Hd] Hi Ho. unfold onmessage.
  rewrite (type_is_transcript_not_summary _ Ht), Ht, Hi. simpl.
  unfold open_interim in Ho.
  destruct (last (lines st)) as [l|] eqn:Hl; [|done].
  destruct (isFinal l) eqn:Hf; [done|].
  apply last_Some in Hl as [p ->].
  rewrite interim_snoc, Hf, !length_app. simpl.
  replace (length p + 1 - 1) with (length p) by lia.
  rewrite take_app_length. split_and!; [done..|].
  unfold open_interim. by rewrite last_snoc, Hd.
Qed.

Lemma C4_interim_replaces_open_line_witness :
  length (lines (onmessage {| lines := [result true "Hi."; result false "Hel"];
                              currentSummary := None |}
                           (result false "Hello")))
  = 2
  ∧ lines (onmessage {| lines := [result true "Hi."; result false "Hel"];
                        currentSummary := None |}
                     (result false "Hello"))
    = [result true "Hi."; result false "Hello"]
  ∧ open_interim
      (lines (onmessage {| lines := [result true "Hi."; result false "Hel"];
                           currentSummary := None |}
                        (result false "Hello")))
    = Some (result false "Hello").
Proof.
  apply (C4_interim_replaces_open_line
           {| lines := [result true "Hi."; result false "Hel"];
              currentSummary := None |}
           (result false "Hello") (result false "Hel")).
  - by split.
  - reflexivity.
  - reflexivity.
Defined.

Lemma receive_app st pre post :
  receive st (pre ++ post) = receive (receive st pre) post.
Proof. apply fold_left_app. Qed.

(** Claim C8.  The retained summary is the latest one: handling a summary
    event stores that event as [currentSummary], whatever was stored
    before and whatever messages came earlier, and leaves the transcript
    lines alone. *)
Theorem C8_latest_summary_is_retained
    (st : state) (earlier : list obj) (data : obj) :
  type_is data "summary" = true →
  currentSummary (onmessage st data) = Some data
  ∧ lines (onmessage st data) = lines st
  ∧ currentSummary (receive st (earlier ++ [data])) = Some data.
Proof.
  intros Hs.
  assert (∀ s, onmessage s data
               = {| lines := lines s; currentSummary := Some data |}) as E.
  { intros s. unfold onmessage. by rewrite Hs. }
  rewrite receive_app. simpl. by rewrite !E.
Qed.

Lemma C8_latest_summary_is_retained_witness :
  currentSummary (onmessage initial (summary "Second half"))
  = Some (summary "Second half")
  ∧ lines (onmessage initial (summary "Second half")) = []
  ∧ currentSummary
      (receive initial
         ([summary "First half"; result false "So"]
          ++ [summary "Second half"]))
    = Some (summary "Second half").
Proof.
  apply (C8_latest_summary_is_retained initial
           [summary "First half"; result false "So"] (summary "Second half")).
  reflexivity.
Defined.

Lemma settled_without_open prev :
  settled prev → List.filter isFinal prev = without_open prev.
Proof.
  intros (p & tl & -> & Hp & Htl). unfold without_open, open_interim.
  destruct tl as [|l [|? ?]]; simpl in Htl; [| |lia].
  - rewrite app_nil_r, filter_isFinal_all by done.
    destruct (last p) as [x|] eqn:El; [|done].
    apply last_Some in El as [p' ->].
    apply Forall_app in Hp as [_ Hx]. inversion Hx as [|? ? Hfx _]; subst.
    by rewrite Hfx.
  - rewrite last_snoc, List.filter_app, filter_isFinal_all by done. simpl.
    destruct (isFinal l); [done|].
    rewrite length_app. simpl.
    replace (length p + 1 - 1) with (length p) by lia.
    by rewrite app_nil_r, take_app_length.
Qed.

Lemma interim_settled_eq data prev :
  settled prev → interim data prev = List.filter isFinal prev ++ [data].
Proof.
  intros (p & tl & -> & Hp & Htl).
  destruct tl as [|l [|? ?]]; simpl in Htl; [| |lia].
  - rewrite app_nil_r, filter_isFinal_all by done.
    destruct p as [|x p' _] using rev_ind; [done|].
    rewrite interim_snoc.
    apply Forall_app in Hp as [_ Hx]. inversion Hx as [|? ? Hfx _]; subst.
    by rewrite Hfx, <- app_assoc.
  - rewrite interim_snoc, List.filter_app, filter_isFinal_all by done. simpl.
    destruct (isFinal l); [by rewrite <- app_assoc|by rewrite app_nil_r].
Qed.

(** On a transcript in which only the last line may be open, the two
    updaters agree: whichever branch [data.is_final] selects, the result
    takes the place of the open line or, when none is open, is appended. *)
Lemma transcript_step st data :
  type_is data "transcript" = true → settled (lines st) →
  lines (onmessage st data) = without_open (lines st) ++ [data].
Proof.
  intros Ht Hs. rewrite <- settled_without_open by done. unfold onmessage.
  rewrite (type_is_transcript_not_summary _ Ht), Ht.
  destruct (truthy (data !! "is_final")); simpl; [done|].
  by apply interim_settled_eq.
Qed.

Lemma open_interim_snoc p l :
  open_interim (p ++ [l]) = if isFinal l then None else Some l.
Proof. unfold open_interim. by rewrite last_snoc. Qed.

Lemma without_open_interims interims st :
  Forall interim_result interims → settled (lines st) →
  without_open (lines (receive st interims)) = without_open (lines st).
Proof.
  intros H. revert st. induction H as [|d ds [Ht Hf] _ IH]; intros st Hs;
    simpl; [done|].
  fold (receive (onmessage st d) ds).
  rewrite IH by by apply onmessage_settled.
  rewrite transcript_step by done.
  unfold without_open at 1. rewrite open_interim_snoc, Hf, length_app. simpl.
  replace (length (without_open (lines st)) + 1 - 1)
    with (length (without_open (lines st))) by lia.
  by rewrite take_app_length.
Qed.

Lemma initial_settled : settled (lines initial).
Proof. exists [], []. by repeat split; [constructor|simpl; lia]. Qed.

(** For results sorted by [isFinal], whatever their [is_final], an
    utterance is reconciled at any point of a session: an interim result
    takes the place of the open line, or becomes the open line when none
    is open; a final result does the same and leaves no line open; after
    the interim results of an utterance and its final result, the
    transcript is the lines that were final before, followed by the one
    final line of the utterance. *)
Lemma utterance_reconciled_by_isFinal
    (earlier interims : list obj) (d data : obj) :
  interim_result d → Forall interim_result interims → final_result data →
  lines (onmessage (receive initial earlier) d)
  = without_open (lines (receive initial earlier)) ++ [d]
  ∧ open_interim (lines (onmessage (receive initial earlier) d)) = Some d
  ∧ lines (onmessage (receive initial earlier) data)
    = without_open (lines (receive initial earlier)) ++ [data]
  ∧ open_interim (lines (onmessage (receive initial earlier) data)) = None
  ∧ lines (receive (receive initial earlier) (interims ++ [data]))
    = List.filter isFinal (lines (receive initial earlier)) ++ [data]
  ∧ List.filter (λ l, negb (isFinal l))
      (lines (receive (receive initial earlier) (interims ++ [data])))
    = [].
Proof.
  intros [Htd Hfd] Hi [Ht Hf].
  pose proof (receive_settled earlier initial initial_settled) as Hs.
  assert (lines (receive (receive initial earlier) (interims ++ [data]))
          = List.filter isFinal (lines (receive initial earlier)) ++ [data])
    as E.
  { rewrite receive_app. simpl.
    rewrite transcript_step by (by try apply receive_settled).
    rewrite without_open_interims by done.
    by rewrite settled_without_open. }
  split_and!.
  - by apply transcript_step.
  - rewrite transcript_step by done. by rewrite open_interim_snoc, Hfd.
  - by apply transcript_step.
  - rewrite transcript_step by done. by rewrite open_interim_snoc, Hf.
  - done.
  - rewrite E, List.filter_app. simpl. rewrite Hf. simpl.
    rewrite app_nil_r. apply filter_open_none, filter_isFinal_Forall.
Qed.

Example scenario_A_with_both_flags :
  lines (receive initial
           [result false "Hel"; result false "Hello";
            result true "Hello there"])
  = [result true "Hello there"]
  ∧ open_interim
      (lines (receive initial
                [result false "Hel"; result false "Hello";
                 result true "Hello there"]))
    = None.
Proof. split; reflexivity. Qed.

(** Claim C1, on results that the handler treats as final by their
    [is_final] and that carry no [isFinal].  The handler branches on
    [data.is_final] but stores [data] as it came and reads the finality
    of a stored line from [line.isFinal], which it never sets.  After the
    interim results "Hel" and "Hello" and the final result "Hello there",
    the only line is the final result, yet no line counts as final and
    the last line is still the open interim: the next interim result
    takes its place, and the next final result drops it. *)
Theorem C1_final_result_is_stored_as_open_line :
  truthy (bare_result true "Hello there" !! "is_final") = true
  ∧ lines (receive initial
             [bare_result false "Hel"; bare_result false "Hello";
              bare_result true "Hello there"])
    = [bare_result true "Hello there"]
  ∧ List.filter isFinal
      (lines (receive initial
                [bare_result false "Hel"; bare_result false "Hello";
                 bare_result true "Hello there"]))
    = []
  ∧ open_interim
      (lines (receive initial
                [bare_result false "Hel"; bare_result false "Hello";
                 bare_result true "Hello there"]))
    = Some (bare_result true "Hello there")
  ∧ lines (receive initial
             [bare_result false "Hel"; bare_result false "Hello";
              bare_result true "Hello there"; bare_result false "And"])
    = [bare_result false "And"]
  ∧ lines (receive initial
             [bare_result false "Hel"; bare_result false "Hello";
              bare_result true "Hello there"; bare_result true "And so on."])
    = [bare_result true "And so on."].
Proof. split_and!; reflexivity. Qed.

Example scenario_A_with_isFinal_only :
  lines (receive initial
           [ {[ "type" := VStr "transcript"; "isFinal" := VBool false;
                "text" := VStr "Hel" ]};
             {[ "type" := VStr "transcript"; "isFinal" := VBool false;
                "text" := VStr "Hello" ]};
             {[ "type" := VStr "transcript"; "isFinal" := VBool true;
                "text" := VStr "Hello there" ]} ])
  = [ {[ "type" := VStr "transcript"; "isFinal" := VBool true;
         "text" := VStr "Hello there" ]} ].
Proof. reflexivity. Qed.

Example scenario_A_then_next_utterance :
  lines (receive initial
           [result false "Hel"; result false "Hello";
            result true "Hello there"; result false "How";
            result true "How are you?"])
  = [result true "Hello there"; result true "How are you?"].
Proof. reflexivity. Qed.

End Transcript.

(** * Properties of the PCM conversion *)
Section Conversion.
Import JSNumber AudioProcessor.

Lemma clamp_Fin q :
  Math_max (Fin (-1)) (Math_min (Fin 1) (Fin q)) = Fin (clamp q).
Proof.
  unfold clamp. simpl. destruct (Qle_bool 1 q); simpl; [done|].
  by destruct (Qle_bool (-1) q).
Qed.

Lemma clamp_bounds q : (-1 <= clamp q)%Q ∧ (clamp q <= 1)%Q.
Proof.
  unfold clamp. destruct (Qle_bool 1 q) eqn:E1; [done|].
  assert (q <= 1)%Q as H1.
  { apply Qlt_le_weak, Qnot_le_lt. intros H%Qle_bool_iff. congruence. }
  destruct (Qle_bool (-1) q) eqn:E2; [|done].
  by apply Qle_bool_iff in E2.
Qed.

Lemma trunc_scale_bounds (c : Q) (k : positive) :
  (-1 <= c)%Q → (c <= 1)%Q →
  (- Zpos k <= trunc (c * (Zpos k # 1)) <= Zpos k)%Z
  ∧ (Qle_bool 0 c = true → 0 <= trunc (c * (Zpos k # 1)))%Z
  ∧ (Qle_bool 0 c = false → trunc (c * (Zpos k # 1)) <= 0)%Z.
Proof.
  destruct c as [a b]. unfold Qle, trunc, Qle_bool. simpl.
  rewrite Pos.mul_1_r. intros Hlo Hhi.
  assert (0 < Zpos b)%Z as Hb by done.
  repeat split.
  - apply Z.quot_le_lower_bound; [done|nia].
  - apply Z.quot_le_upper_bound; [done|nia].
  - intros H%Z.leb_le. apply Z.quot_le_lower_bound; [done|nia].
  - intros H%Z.leb_gt. apply Z.quot_le_upper_bound; [done|nia].
Qed.

Lemma wrap16_small z : (-32768 <= z <= 32767)%Z → wrap16 z = z.
Proof.
  intros H. unfold wrap16.
  destruct (Z.leb_spec 32768 (z mod 65536)); Z.div_mod_to_equations; lia.
Qed.

Lemma pcm_spec_range x : (-32768 <= pcm_spec x <= 32767)%Z.
Proof.
  destruct x as [| | |q]; simpl; try lia.
  destruct (clamp_bounds q) as [Hlo Hhi].
  destruct (Qle_bool 0 (clamp q)) eqn:E; cbn [negb].
  - destruct (trunc_scale_bounds (clamp q) 32767 Hlo Hhi) as (H & _ & _). lia.
  - destruct (trunc_scale_bounds (clamp q) 32768 Hlo Hhi) as (H & _ & Hn).
    specialize (Hn E). lia.
Qed.

Lemma pcm_sample_spec x : pcm_sample x = pcm_spec x.
Proof.
  destruct x as [| | |q]; try reflexivity.
  pose proof (pcm_spec_range (Fin q)) as Hr.
  unfold pcm_sample. rewrite clamp_Fin.
  change (lt (Fin (clamp q)) (Fin 0)) with (negb (Qle_bool 0 (clamp q))).
  cbn [pcm_spec] in *.
  destruct (Qle_bool 0 (clamp q)); cbn [negb mul ToInt16];
    by rewrite wrap16_small.
Qed.

Lemma pcm_sample_clip_high q : (1 <= q)%Q → pcm_sample (Fin q) = 32767%Z.
Proof.
  intros H%Qle_bool_iff. rewrite pcm_sample_spec. simpl.
  unfold clamp. by rewrite H.
Qed.

Lemma pcm_sample_clip_low q : (q <= -1)%Q → pcm_sample (Fin q) = (-32768)%Z.
Proof.
  intros H. rewrite pcm_sample_spec. simpl. unfold clamp.
  destruct (Qle_bool 1 q) eqn:E1.
  { apply Qle_bool_iff in E1. exfalso.
    apply (Qle_not_lt 1 (-1)); [by apply (Qle_trans _ q)|done]. }
  destruct (Qle_bool (-1) q) eqn:E2; [|done].
  apply Qle_bool_iff in E2.
  destruct q as [a b]. unfold Qle in H, E2. simpl in H, E2.
  assert (a = - Zpos b)%Z as -> by lia.
  unfold Qle_bool, trunc. simpl. rewrite Pos.mul_1_r.
  rewrite Z.mul_opp_l, Z.quot_opp_l, Z.mul_comm, Z.quot_mul by done. done.
Qed.

(** Claim C6.  The conversion to PCM yields one signed 16-bit integer per
    input sample: the clipped sample, scaled by [0x8000] below zero and by
    [0x7FFF] otherwise, with the fraction dropped; it lies in
    [-32768, 32767]; a sample of at least 1 gives 32767 and one of at most
    -1 gives -32768; the output is as long as the input.  The inline
    conversion of the earlier worklet computes the same samples. *)
Theorem C6_pcm_conversion (float32Array : list number) :
  length (convertTo16BitPCM float32Array) = length float32Array
  ∧ convertTo16BitPCM float32Array = map pcm_spec float32Array
  ∧ Forall (λ z, (-32768 <= z <= 32767)%Z) (convertTo16BitPCM float32Array)
  ∧ (∀ q, (1 <= q)%Q → pcm_sample (Fin q) = 32767%Z)
  ∧ (∀ q, (q <= -1)%Q → pcm_sample (Fin q) = (-32768)%Z)
  ∧ pcm_sample PosInf = 32767%Z
  ∧ pcm_sample NegInf = (-32768)%Z
  ∧ InlineAudioProcessor.process [[float32Array]]
    = if length float32Array =? 0 then []
      else [convertTo16BitPCM float32Array].
Proof.
  unfold convertTo16BitPCM.
  split; [apply length_map|].
  split; [apply map_ext, pcm_sample_spec|].
  split.
  { apply Forall_map, Forall_forall. intros x _.
    rewrite pcm_sample_spec. apply pcm_spec_range. }
  split; [apply pcm_sample_clip_high|].
  split; [apply pcm_sample_clip_low|].
  done.
Qed.

Example pcm_of_samples :
  convertTo16BitPCM
    [Fin 0; Fin (1 # 2); Fin (-1 # 2); Fin 1; Fin (-1); Fin (3 # 2);
     Fin (-5); Fin (-1 # 65536); NaN; PosInf; NegInf]
  = [0; 16383; -16384; 32767; -32768; 32767; -32768; 0; 0; 32767; -32768]%Z.
Proof. reflexivity. Qed.

End Conversion.

(** * Properties of the buffering worklet *)
Section Buffering.
Import JSNumber AudioProcessor.

Lemma fill_framed src size samples acc x :
  framed size samples acc → framed size (samples ++ [x]) (fill src acc x).
Proof.
  destruct acc as [this posted].
  intros (Hs & Hl & Hi & frames & -> & Hf & Hp). simpl in *.
  assert (take (S (bufferIndex this)) (<[bufferIndex this := x]> (buffer this))
          = take (bufferIndex this) (buffer this) ++ [x]) as Htake.
  { rewrite (take_S_r _ _ x) by (apply list_lookup_insert_eq; lia).
    by rewrite take_insert_ge. }
  unfold fill. cbn [fst snd]. rewrite Hs.
  destruct (Nat.eqb_spec (S (bufferIndex this)) size) as [E|E];
    unfold framed; cbn [fst snd bufferSize buffer bufferIndex].
  - split; [done|]. split; [by rewrite length_insert|]. split; [lia|].
    exists (frames ++ [<[bufferIndex this := x]> (buffer this)]).
    repeat split.
    + rewrite concat_app. simpl. rewrite !app_nil_r, <- app_assoc. f_equal.
      rewrite <- Htake. apply take_ge. rewrite length_insert. lia.
    + apply Forall_app. split; [done|].
      repeat constructor. by rewrite length_insert.
    + by rewrite !map_app, Hp.
  - split; [done|]. split; [by rewrite length_insert|]. split; [lia|].
    exists frames. rewrite Htake, app_assoc. done.
Qed.

Lemma fold_fill_framed src size xs samples acc :
  framed size samples acc →
  framed size (samples ++ xs) (fold_left (fill src) xs acc).
Proof.
  revert samples acc. induction xs as [|x xs IH]; intros samples acc H; simpl.
  - by rewrite app_nil_r.
  - replace (samples ++ x :: xs) with ((samples ++ [x]) ++ xs)
      by by rewrite <- app_assoc.
    by apply IH, fill_framed.
Qed.

Lemma fill_posted src this posted x :
  fill src (this, posted) x
  = ((fill src (this, []) x).1, posted ++ (fill src (this, []) x).2).
Proof.
  unfold fill. cbn [fst snd].
  destruct (S (bufferIndex this) =? bufferSize this); cbn [fst snd];
    [done|by rewrite app_nil_r].
Qed.

Lemma fold_fill_posted src xs this posted :
  fold_left (fill src) xs (this, posted)
  = ((fold_left (fill src) xs (this, [])).1,
     posted ++ (fold_left (fill src) xs (this, [])).2).
Proof.
  assert (∀ xs this posted q,
    fold_left (fill src) xs (this, posted ++ q)
    = ((fold_left (fill src) xs (this, q)).1,
       posted ++ (fold_left (fill src) xs (this, q)).2)) as G.
  { clear. induction xs as [|x xs IH]; intros this posted q;
      cbn [fold_left]; [done|].
    rewrite (fill_posted src this (posted ++ q)), (fill_posted src this q).
    destruct (fill src (this, []) x) as [this' posted'']. cbn [fst snd].
    rewrite <- app_assoc. apply IH. }
  rewrite <- (app_nil_r posted) at 1. apply G.
Qed.

Lemma process_framed size samples this posted inputs :
  framed size samples (this, posted) →
  framed size (samples ++ ingested inputs)
    ((process this inputs).1, posted ++ (process this inputs).2).
Proof.
  intros H. destruct inputs as [|[|inputChannel ?] ?]; simpl;
    rewrite ?app_nil_r; try done.
  rewrite <- fold_fill_posted. by apply fold_fill_framed.
Qed.

Lemma run_framed size calls samples acc :
  framed size samples acc →
  framed size (samples ++ concat (map ingested calls))
    (fold_left (λ acc inputs,
                  let r := process acc.1 inputs in (r.1, acc.2 ++ r.2))
       calls acc).
Proof.
  revert samples acc. induction calls as [|inputs calls IH];
    intros samples acc H; simpl.
  - by rewrite app_nil_r.
  - rewrite app_assoc. apply IH. destruct acc. by apply process_framed.
Qed.

Lemma new_framed : framed 4096 [] (new, []).
Proof.
  split; [done|]. split; [apply length_replicate|]. split; [simpl; lia|].
  exists []. by repeat split.
Qed.

Lemma length_concat_frames {A} size (frames : list (list A)) :
  Forall (λ f, length f = size) frames →
  length (concat frames) = size * length frames.
Proof.
  induction 1 as [|f frames Hf _ IH]; simpl; [lia|].
  rewrite length_app, IH, Hf. lia.
Qed.

Lemma framed_counts size samples acc :
  framed size samples acc →
  Forall (λ m, length (audio m) = size) acc.2
  ∧ length (concat (map audio acc.2)) + bufferIndex acc.1 = length samples
  ∧ length samples = size * length acc.2 + bufferIndex acc.1.
Proof.
  intros (Hs & Hl & Hi & frames & -> & Hf & Hp).
  assert (Forall (λ a, length a = size) (map audio acc.2)) as Ha.
  { rewrite Hp. apply Forall_map. eapply Forall_impl; [exact Hf|].
    intros f Hlen. simpl. unfold convertTo16BitPCM. by rewrite length_map. }
  assert (length acc.2 = length frames) as Hn.
  { by rewrite <- (length_map audio), Hp, length_map. }
  split; [by apply Forall_map in Ha|].
  rewrite length_app, (length_concat_frames size _ Ha),
    (length_concat_frames size _ Hf), length_map, length_take_le by lia.
  lia.
Qed.

(** Claim C5.  The worklet forwards the audio in frames of [bufferSize]
    samples with no gap and no duplicate: over any sequence of calls of
    [process] on a new worklet, the ingested samples are, in order, the
    frames posted so far followed by the filled part of the buffer; each
    posted frame holds the PCM of exactly 4096 samples; and the samples
    posted number the samples ingested less the [bufferIndex] (fewer than
    4096) still waiting in the buffer. *)
Theorem C5_frames_without_gap_or_duplicate
    (calls : list (list (list (list number)))) :
  ∃ frames,
    concat (map ingested calls)
    = concat frames
      ++ take (bufferIndex (run new calls).1) (buffer (run new calls).1)
    ∧ Forall (λ f, length f = 4096) frames
    ∧ map audio (run new calls).2 = map convertTo16BitPCM frames
    ∧ Forall (λ m, length (audio m) = 4096) (run new calls).2
    ∧ bufferIndex (run new calls).1 < 4096
    ∧ length (concat (map audio (run new calls).2))
      = length (concat (map ingested calls)) - bufferIndex (run new calls).1
    ∧ length (run new calls).2 = length (concat (map ingested calls)) / 4096
    ∧ bufferIndex (run new calls).1
      = length (concat (map ingested calls)) mod 4096.
Proof.
  assert (framed 4096 (concat (map ingested calls)) (run new calls)) as H
    by apply (run_framed 4096 calls [] (new, []) new_framed).
  generalize dependent (run new calls). intros r H.
  destruct (framed_counts _ _ _ H) as (Ha & Hc & Hd).
  destruct H as (_ & _ & Hi & frames & Hs & Hf & Hp).
  exists frames. split_and!; try done.
  - lia.
  - by apply (Nat.div_unique _ _ _ (bufferIndex r.1)).
  - by apply (Nat.mod_unique _ _ (length r.2)).
Qed.

Example one_frame_and_a_rest :
  map (λ m, (type m, source m, length (audio m), take 3 (audio m)))
    (run new (replicate 33 [[replicate 128 (Fin (1 # 2))]])).2
  = [("audio", "mic", 4096, [16383; 16383; 16383]%Z)]
  ∧ bufferIndex (run new (replicate 33 [[replicate 128 (Fin (1 # 2))]])).1
    = 128.
Proof. by vm_compute. Qed.

Lemma fill_source src acc x :
  Forall (λ m, source m = src) acc.2 →
  Forall (λ m, source m = src) (fill src acc x).2.
Proof.
  intros H. unfold fill.
  destruct (S (bufferIndex acc.1) =? bufferSize acc.1); cbn [snd]; [|done].
  apply Forall_app. split; [done|]. by repeat constructor.
Qed.

Lemma fold_fill_source src xs acc :
  Forall (λ m, source m = src) acc.2 →
  Forall (λ m, source m = src) (fold_left (fill src) xs acc).2.
Proof.
  revert acc. induction xs as [|x xs IH]; intros acc H; cbn [fold_left];
    [done|].
  by apply IH, fill_source.
Qed.

Lemma process_source this inputs :
  Forall (λ m, source m = "mic") (process this inputs).2.
Proof.
  destruct inputs as [|[|inputChannel ?] ?]; cbn [process snd];
    try by constructor.
  destruct inputChannel as [|x xs]; [by constructor|].
  by apply fold_fill_source.
Qed.

(** Claim C9.  Every message the worklet posts is tagged ['mic']: the tag
    is ['display'] only for an empty input channel, and then the fill loop
    does not run and nothing is posted. *)
Theorem C9_every_posted_frame_is_tagged_mic
    (this : t) (inputs : list (list (list number)))
    (calls : list (list (list (list number)))) :
  Forall (λ m, source m = "mic") (process this inputs).2
  ∧ Forall (λ m, source m = "mic") (run this calls).2
  ∧ process this [[[]]] = (this, []).
Proof.
  split; [apply process_source|]. split; [|done].
  unfold run.
  assert (∀ acc, Forall (λ m, source m = "mic") acc.2 →
            Forall (λ m, source m = "mic")
              (fold_left (λ acc inputs,
                            let r := process acc.1 inputs in
                            (r.1, acc.2 ++ r.2)) calls acc).2) as G.
  { induction calls as [|c calls IH]; intros acc H; cbn [fold_left]; [done|].
    apply IH. cbn [snd]. apply Forall_app. split; [done|].
    apply process_source. }
  by apply G.
Qed.

End Buffering.

(** * Properties of the socket handlers *)
Section Socket.
Import App.

Lemma port_onmessage_open ws data :
  readyState ws = 1 →
  port_onmessage ws data
  = {| readyState := 1; sent := sent ws ++ [audio_message data] |}.
Proof. intros H. unfold port_onmessage. by rewrite H. Qed.




Example frames_while_connecting :
  sent (steps {| readyState := 0; sent := [] |}
          [Frame {| AudioProcessor.type := "audio";
                    AudioProcessor.source := "mic";
                    AudioProcessor.audio := [1; 2]%Z |};
           ReadyState 1;
           Frame {| AudioProcessor.type := "audio";
                    AudioProcessor.source := "mic";
                    AudioProcessor.audio := [3; 4]%Z |};
           ReadyState 3;
           Frame {| AudioProcessor.type := "audio";
                    AudioProcessor.source := "mic";
                    AudioProcessor.audio := [5; 6]%Z |}])
  = [ {[ "type" := VStr "audio"; "source" := VStr "mic";
         "data" := VObj ∅ ]} ].
Proof. reflexivity. Qed.

(** Claim C7 as stated fails: the setup message of a session whose
    speakers are Ann and Bob has no property besides [type] and
    [speakers], and [speakers] none besides the two names, so nothing
    holds a summarization interval. *)
Lemma C7_setup_message_has_no_interval :
  ∃ msg,
    sent (onopen {| panelist := "Ann"; candidate := "Bob" |}
                 {| readyState := 1; sent := [] |}) = [msg]
    ∧ ¬ carries_configuration msg.
Proof.
  eexists. split; [reflexivity|].
  intros (_ & _ & [(k & Ht & Hs & Hk)|(o & k & Ho & Hp & Hc & Hk)]).
  - rewrite lookup_insert_ne, lookup_singleton_ne in Hk by done.
    by destruct Hk.
  - rewrite lookup_insert_ne, lookup_singleton_eq in Ho by done.
    injection Ho as <-.
    rewrite lookup_insert_ne, lookup_singleton_ne in Hk by done.
    by destruct Hk.
Qed.

(** Claim C7, amended.  The message sent when the socket opens has type
    ["setup"] and carries the speaker labels, and nothing else: its only
    properties are [type] and [speakers], and [speakers] holds exactly the
    [panelist] and [candidate] names. *)
Theorem C7_setup_message_carries_speakers (sp : speakers) (ws : websocket) :
  ∃ msg,
    sent (onopen sp ws) = sent ws ++ [msg]
    ∧ msg !! "type" = Some (VStr "setup")
    ∧ msg !! "speakers"
      = Some (VObj {[ "panelist" := VStr (panelist sp);
                      "candidate" := VStr (candidate sp) ]})
    ∧ dom msg = {[ "type"; "speakers" ]}
    ∧ dom ({[ "panelist" := VStr (panelist sp);
              "candidate" := VStr (candidate sp) ]} : obj)
      = {[ "panelist"; "candidate" ]}.
Proof.
  eexists. split; [reflexivity|]. split_and!; reflexivity.
Qed.

End Socket.

(** * Further properties of the worklets *)
Section Frames.
Import JSNumber AudioProcessor.

Lemma process_fold this inputs :
  process this inputs = fold_left (fill "mic") (ingested inputs) (this, []).
Proof.
  destruct inputs as [|[|inputChannel ?] ?]; try done.
  by destruct inputChannel.
Qed.

Lemma run_fold calls acc :
  fold_left (λ acc inputs,
               let r := process acc.1 inputs in (r.1, acc.2 ++ r.2))
    calls acc
  = ((fold_left (fill "mic") (concat (map ingested calls)) (acc.1, [])).1,
     acc.2
     ++ (fold_left (fill "mic") (concat (map ingested calls)) (acc.1, [])).2).
Proof.
  revert acc. induction calls as [|inputs calls IH]; intros [this posted].
  - simpl. by rewrite app_nil_r.
  - cbn [fold_left map concat fst snd]. rewrite IH, fold_left_app.
    cbn [fst snd]. rewrite <- process_fold.
    destruct (process this inputs) as [this' posted'] eqn:E. cbn [fst snd].
    rewrite (fold_fill_posted "mic" _ this' posted').
    cbn [fst snd]. by rewrite app_assoc.
Qed.

Lemma run_as_process this calls :
  run this calls = process this [[concat (map ingested calls)]].
Proof.
  unfold run. rewrite run_fold, process_fold. cbn [fst snd ingested].
  by destruct (fold_left _ _ _).
Qed.

(** Property X1.  How the samples are cut into calls does not matter:
    any succession of calls of [process], from any state, leaves the state
    and posts the messages that a single call with all the ingested
    samples in one channel would. *)
Theorem X1_calls_only_matter_by_their_samples
    (this : t) (calls : list (list (list (list number)))) :
  run this calls = process this [[concat (map ingested calls)]].
Proof.
  unfold run. rewrite run_fold, !process_fold. cbn [fst snd ingested].
  destruct (fold_left (fill "mic") (concat (map ingested calls)) (this, []))
    as [this' posted].
  reflexivity.
Qed.

Example same_samples_other_calls :
  run new [[[replicate 4000 (Fin (1 # 4))]]; [];
           [[replicate 96 (Fin (1 # 4)); [Fin 1]]; [[NaN]]]; [[[]]];
           [[[Fin (-1)]]]]
  = run new [[[replicate 4096 (Fin (1 # 4)) ++ [Fin (-1)]]]].
Proof. by vm_compute. Qed.

End Frames.

(** * Further properties of the PCM conversion *)
Section Quantisation.
Import JSNumber AudioProcessor.

Lemma div_mono_cross a b c d :
  (0 <= a)%Z → (0 < b)%Z → (0 < d)%Z → (a * d <= c * b)%Z →
  (a / b <= c / d)%Z.
Proof.
  intros Ha Hb Hd H.
  apply Z.div_le_lower_bound; [done|].
  pose proof (Z.mul_div_le a b Hb) as H1.
  assert (0 <= a / b)%Z as H2 by (apply Z.div_pos; lia).
  apply (Z.mul_le_mono_pos_l _ _ b); [done|]. nia.
Qed.

(** Dropping the fraction preserves the order of the rationals. *)
Lemma trunc_mono x y : (x <= y)%Q → (trunc x <= trunc y)%Z.
Proof.
  destruct x as [a b], y as [c d]. unfold Qle, trunc. simpl. intros H.
  assert (0 < Zpos b)%Z as Hb by done. assert (0 < Zpos d)%Z as Hd by done.
  destruct (Z_le_gt_dec 0 a) as [Ha|Ha].
  - assert (0 <= c)%Z as Hc by nia.
    rewrite !Z.quot_div_nonneg by lia. by apply div_mono_cross.
  - destruct (Z_le_gt_dec 0 c) as [Hc|Hc].
    + transitivity 0%Z.
      * apply Z.quot_le_upper_bound; lia.
      * apply Z.quot_pos; lia.
    + replace a with (- - a)%Z by lia. replace c with (- - c)%Z by lia.
      rewrite (Z.quot_opp_l (- a)), (Z.quot_opp_l (- c)) by lia.
      rewrite !Z.quot_div_nonneg by lia.
      apply Z.opp_le_mono. rewrite !Z.opp_involutive.
      apply div_mono_cross; lia.
Qed.

Lemma trunc_Qeq x y : (x == y)%Q → trunc x = trunc y.
Proof.
  intros H. apply Z.le_antisymm; apply trunc_mono; rewrite H; apply Qle_refl.
Qed.

Lemma trunc_floor x :
  (0 <= x)%Q →
  (inject_Z (trunc x) <= x)%Q ∧ (x < inject_Z (trunc x) + 1)%Q.
Proof.
  destruct x as [a b]. unfold Qle, Qlt, trunc. simpl. intros H.
  rewrite Z.mul_1_r in *.
  rewrite Z.quot_div_nonneg by lia.
  pose proof (Z.mul_div_le a (Zpos b)).
  pose proof (Z.mul_succ_div_gt a (Zpos b)).
  split; nia.
Qed.

Lemma trunc_ceil x :
  (x <= 0)%Q →
  (x <= inject_Z (trunc x))%Q ∧ (inject_Z (trunc x) - 1 < x)%Q.
Proof.
  destruct x as [a b]. unfold Qle, Qlt, trunc. simpl. intros H.
  rewrite Z.mul_1_r in *.
  replace a with (- - a)%Z by lia. rewrite (Z.quot_opp_l (- a)) by lia.
  rewrite Z.quot_div_nonneg by lia.
  pose proof (Z.mul_div_le (- a) (Zpos b)).
  pose proof (Z.mul_succ_div_gt (- a) (Zpos b)).
  split; nia.
Qed.

Lemma clamp_mono p q : (p <= q)%Q → (clamp p <= clamp q)%Q.
Proof.
  destruct p as [a b], q as [c d].
  unfold clamp, Qle_bool, Qle. simpl. intros H.
  repeat match goal with
         | |- context [(?x <=? ?y)%Z] => destruct (Z.leb_spec x y)
         end; simpl; nia.
Qed.

Lemma clamp_id q : (-1 <= q)%Q → (q <= 1)%Q → (clamp q == q)%Q.
Proof.
  intros Hlo Hhi. unfold clamp.
  destruct (Qle_bool 1 q) eqn:E1.
  - apply Qle_bool_iff in E1. by apply Qle_antisym.
  - destruct (Qle_bool (-1) q) eqn:E2; [reflexivity|].
    apply Qle_bool_iff in Hlo. congruence.
Qed.

(** Property X2.  The conversion preserves the order of the samples: a
    sample that is not larger gives a PCM value that is not larger. *)
Theorem X2_pcm_is_monotone (p q : Q) :
  (p <= q)%Q → (pcm_sample (Fin p) <= pcm_sample (Fin q))%Z.
Proof.
  intros H%clamp_mono. rewrite !pcm_sample_spec. cbn [pcm_spec].
  destruct (clamp_bounds p) as [Hp1 Hp2], (clamp_bounds q) as [Hq1 Hq2].
  destruct (Qle_bool 0 (clamp p)) eqn:Ep, (Qle_bool 0 (clamp q)) eqn:Eq;
    cbn [negb].
  - apply trunc_mono, Qmult_le_compat_r; done.
  - apply Qle_bool_iff in Ep.
    assert (Qle_bool 0 (clamp q) = true) as E'
      by by apply Qle_bool_iff, (Qle_trans _ (clamp p)).
    congruence.
  - destruct (trunc_scale_bounds (clamp p) 32768 Hp1 Hp2) as (_ & _ & Hn).
    destruct (trunc_scale_bounds (clamp q) 32767 Hq1 Hq2) as (_ & Hn' & _).
    specialize (Hn Ep). specialize (Hn' Eq). lia.
  - apply trunc_mono, Qmult_le_compat_r; done.
Qed.

Lemma X2_pcm_is_monotone_witness :
  (pcm_sample (Fin (-1 # 3)) <= pcm_sample (Fin (2 # 5)))%Z.
Proof. apply (X2_pcm_is_monotone (-1 # 3) (2 # 5)). done. Defined.

(** Property X3.  Within [-1, 1] the conversion rounds toward zero and
    is off by less than one step: the PCM value of a sample [q >= 0] is
    the largest integer not above [q * 32767], and that of a sample
    [q < 0] the smallest integer not below [q * 32768]. *)
Theorem X3_pcm_rounds_toward_zero (q : Q) :
  (-1 <= q)%Q → (q <= 1)%Q →
  ((0 <= q)%Q →
   (inject_Z (pcm_sample (Fin q)) <= q * 32767)%Q
   ∧ (q * 32767 < inject_Z (pcm_sample (Fin q)) + 1)%Q)
  ∧ ((q < 0)%Q →
     (q * 32768 <= inject_Z (pcm_sample (Fin q)))%Q
     ∧ (inject_Z (pcm_sample (Fin q)) - 1 < q * 32768)%Q).
Proof.
  intros Hlo Hhi. pose proof (clamp_id q Hlo Hhi) as Hc.
  rewrite pcm_sample_spec. cbn [pcm_spec]. split; intros Hs.
  - assert (Qle_bool 0 (clamp q) = true) as ->
      by (apply Qle_bool_iff; by rewrite Hc).
    cbn [negb]. rewrite (trunc_Qeq _ (q * 32767)) by by rewrite Hc.
    apply trunc_floor. by apply Qmult_le_0_compat.
  - assert (Qle_bool 0 (clamp q) = false) as ->.
    { destruct (Qle_bool 0 (clamp q)) eqn:E; [|done].
      apply Qle_bool_iff in E. rewrite Hc in E.
      by apply Qle_not_lt in E. }
    cbn [negb]. rewrite (trunc_Qeq _ (q * 32768)) by by rewrite Hc.
    apply trunc_ceil. clear -Hs.
    destruct q as [a b]. unfold Qle, Qlt in *. simpl in *. lia.
Qed.

Lemma X3_pcm_rounds_toward_zero_witness :
  ((0 <= 1 # 3)%Q →
   (inject_Z (pcm_sample (Fin (1 # 3))) <= (1 # 3) * 32767)%Q
   ∧ ((1 # 3) * 32767 < inject_Z (pcm_sample (Fin (1 # 3))) + 1)%Q)
  ∧ ((1 # 3 < 0)%Q →
     ((1 # 3) * 32768 <= inject_Z (pcm_sample (Fin (1 # 3))))%Q
     ∧ (inject_Z (pcm_sample (Fin (1 # 3))) - 1 < (1 # 3) * 32768)%Q).
Proof. apply (X3_pcm_rounds_toward_zero (1 # 3)); done. Defined.

Example pcm_of_thirds :
  pcm_sample (Fin (1 # 3)) = 10922%Z ∧ pcm_sample (Fin (-1 # 3)) = (-10922)%Z.
Proof. done. Qed.

End Quantisation.

(** * The two worklets compared *)
Section Worklets.
Import JSNumber AudioProcessor.

Lemma inline_process inputs :
  InlineAudioProcessor.process inputs
  = match ingested inputs with
    | [] => []
    | _ :: _ => [convertTo16BitPCM (ingested inputs)]
    end.
Proof.
  destruct inputs as [|[|inputChannel ?] ?]; try done.
  by destruct inputChannel.
Qed.

Lemma inline_run_concat calls :
  concat (inline_run calls) = convertTo16BitPCM (concat (map ingested calls)).
Proof.
  unfold inline_run, convertTo16BitPCM.
  induction calls as [|inputs calls IH]; [done|].
  cbn [flat_map map concat]. rewrite concat_app, map_app, IH. f_equal.
  rewrite inline_process. destruct (ingested inputs); [done|].
  cbn [concat]. by rewrite app_nil_r.
Qed.

Lemma inline_run_nonempty calls : Forall (λ b, b ≠ []) (inline_run calls).
Proof.
  unfold inline_run. induction calls as [|inputs calls IH]; [constructor|].
  cbn [flat_map]. apply Forall_app. split; [|done].
  rewrite inline_process. destruct (ingested inputs); by repeat constructor.
Qed.

(** Property X4.  The converting worklet of the earlier version posts
    every sample at once: over any succession of calls it posts no empty
    buffer, and its buffers put end to end are the PCM of all ingested
    samples.  The buffering worklet posts a prefix of that stream, short
    of it by the [bufferIndex] samples still in its buffer. *)
Theorem X4_inline_worklet_posts_every_sample
    (calls : list (list (list (list number)))) :
  concat (inline_run calls) = convertTo16BitPCM (concat (map ingested calls))
  ∧ Forall (λ b, b ≠ []) (inline_run calls)
  ∧ concat (inline_run calls)
    = concat (map audio (run new calls).2)
      ++ convertTo16BitPCM
           (take (bufferIndex (run new calls).1) (buffer (run new calls).1))
  ∧ length (concat (inline_run calls))
    = length (concat (map audio (run new calls).2))
      + bufferIndex (run new calls).1.
Proof.
  split; [apply inline_run_concat|]. split; [apply inline_run_nonempty|].
  assert (framed 4096 (concat (map ingested calls)) (run new calls)) as H
    by apply (run_framed 4096 calls [] (new, []) new_framed).
  destruct (framed_counts _ _ _ H) as (_ & Hc & _).
  destruct H as (_ & _ & _ & frames & Hs & _ & Hp).
  rewrite inline_run_concat. split.
  - rewrite Hp, Hs at 1. unfold convertTo16BitPCM.
    by rewrite map_app, concat_map.
  - unfold convertTo16BitPCM. rewrite length_map. lia.
Qed.

End Worklets.

(** * Further properties of the message handler *)
Section Messages.
Import App.

Lemma onmessage_lines_ext st st' data :
  lines st = lines st' → lines (onmessage st data) = lines (onmessage st' data).
Proof.
  intros H. unfold onmessage.
  destruct (type_is data "summary"); [done|].
  destruct (type_is data "transcript"); [|done].
  destruct (truthy (data !! "is_final")); simpl; by rewrite H.
Qed.

Lemma onmessage_lines_other st data :
  type_is data "transcript" = false → lines (onmessage st data) = lines st.
Proof.
  intros H. unfold onmessage. rewrite H.
  by destruct (type_is data "summary").
Qed.

Lemma receive_transcripts msgs st st' :
  lines st = lines st' →
  lines (receive st msgs) = lines (receive st' (transcripts msgs)).
Proof.
  revert st st'. induction msgs as [|d msgs IH]; intros st st' H; [done|].
  cbn [receive fold_left transcripts List.filter].
  destruct (type_is d "transcript") eqn:E; cbn [fold_left].
  - apply IH. by apply onmessage_lines_ext.
  - apply IH. by rewrite onmessage_lines_other.
Qed.

(** Property X5.  The transcript depends on the transcript messages
    alone: summary events and messages of any other type, wherever they
    come in the stream, leave [lines] as it would be without them. *)
Theorem X5_transcript_ignores_other_messages (st : state) (msgs : list obj) :
  lines (receive st msgs) = lines (receive st (transcripts msgs)).
Proof.
  (* the induction needs the two states to differ in [currentSummary] *)
  apply (receive_transcripts msgs st st).
  reflexivity.
Qed.

Lemma summaries_snoc msgs d :
  summaries (msgs ++ [d])
  = summaries msgs ++ (if type_is d "summary" then [d] else []).
Proof. unfold summaries. by rewrite List.filter_app. Qed.

Lemma onmessage_summary_other st data :
  type_is data "summary" = false →
  currentSummary (onmessage st data) = currentSummary st.
Proof.
  intros H. unfold onmessage. rewrite H.
  destruct (type_is data "transcript"); [|done].
  by destruct (truthy (data !! "is_final")).
Qed.

Lemma receive_last_summary msgs st :
  currentSummary (receive st msgs)
  = match last (summaries msgs) with
    | Some d => Some d
    | None => currentSummary st
    end.
Proof.
  induction msgs as [|d msgs IH] using rev_ind; [done|].
  rewrite receive_app, summaries_snoc. cbn [receive fold_left].
  destruct (type_is d "summary") eqn:E.
  - rewrite last_snoc. unfold onmessage. by rewrite E.
  - rewrite app_nil_r, onmessage_summary_other by done. apply IH.
Qed.

(** Property X6.  The retained summary is the last summary event of the
    whole stream, whatever transcript or other messages came after it,
    and the summary retained before when the stream holds none. *)
Theorem X6_summary_is_the_last_summary_event (st : state) (msgs : list obj) :
  currentSummary (receive st msgs)
  = match last (summaries msgs) with
    | Some d => Some d
    | None => currentSummary st
    end.
Proof.
  induction msgs as [|d msgs IH] using rev_ind; [done|].
  rewrite receive_app, summaries_snoc. cbn [receive fold_left].
  destruct (type_is d "summary") eqn:E.
  - rewrite last_snoc. unfold onmessage. by rewrite E.
  - rewrite app_nil_r, onmessage_summary_other by done. apply IH.
Qed.

Lemma filter_isFinal_split (ts : list obj) :
  List.filter isFinal (take (length ts - 1) ts)
  ++ List.filter isFinal (drop (length ts - 1) ts)
  = List.filter isFinal ts.
Proof. by rewrite <- List.filter_app, take_drop. Qed.

Lemma receive_transcripts_closed ts :
  Forall (λ d, type_is d "transcript" = true) ts →
  lines (receive initial ts)
  = List.filter isFinal (take (length ts - 1) ts) ++ drop (length ts - 1) ts.
Proof.
  induction ts as [|d ts IH] using rev_ind; intros H; [done|].
  apply Forall_app in H as [Hts Hd]. inversion Hd as [|? ? Ht _]; subst.
  rewrite receive_app. cbn [receive fold_left].
  rewrite transcript_step by (by try apply receive_settled, initial_settled).
  rewrite <- settled_without_open
    by apply receive_settled, initial_settled.
  rewrite IH by done. rewrite List.filter_app, filter_isFinal_idemp.
  rewrite filter_isFinal_split, length_app. simpl.
  replace (length ts + 1 - 1) with (length ts) by lia.
  by rewrite take_app_length, drop_app_length.
Qed.

(** Property X7.  The transcript in closed form: after any stream of
    messages from the start of a session, [lines] is the transcript
    messages received whose [isFinal] is truthy, in order, the latest
    transcript message excepted, which is the last line whatever its
    flag.  So every interim result but the latest is gone, and no final
    result is. *)
Theorem X7_transcript_in_closed_form (msgs : list obj) :
  lines (receive initial msgs)
  = List.filter isFinal
      (take (length (transcripts msgs) - 1) (transcripts msgs))
    ++ drop (length (transcripts msgs) - 1) (transcripts msgs).
Proof.
  rewrite (receive_transcripts msgs initial initial) by done.
  apply receive_transcripts_closed.
  unfold transcripts. apply List.Forall_forall.
  by intros d [_ H]%filter_In.
Qed.

Example transcript_of_a_stream :
  lines (receive initial
           [result false "Hel"; summary "So far"; result true "Hello there";
            result false "How"; {[ "type" := VStr "error" ]};
            result false "How are"])
  = [result true "Hello there"; result false "How are"].
Proof. reflexivity. Qed.

End Messages.

(** * Properties of the session life cycle *)
Section LifeCycle.
Import App Session.

Lemma start_socket env :
  is_Some (wsRef (start env))
  ↔ (getUserMedia env = true ∨ getDisplayMedia env = DisplayWithAudio)
    ∧ setup env = SetupDone.
Proof.
  destruct env as [[] [] []]; cbn; rewrite ?is_Some_alt;
    intuition (discriminate || auto).
Qed.

Lemma start_socket_fresh env ws :
  wsRef (start env) = Some ws → ws = {| readyState := 0; sent := [] |}.
Proof. destruct env as [[] [] []]; unfold start; cbn; by intros [=]. Qed.

(** Property X10.  [start()] opens a socket exactly when a microphone
    stream or a shared stream with an audio track was obtained and the
    worklet was set up; and it connects to the mixer exactly the streams
    obtained with audio, the microphone first. *)
Theorem X10_socket_needs_a_source_and_the_worklet (env : environment) :
  (is_Some (wsRef (start env))
   ↔ (getUserMedia env = true ∨ getDisplayMedia env = DisplayWithAudio)
     ∧ setup env = SetupDone)
  ∧ mixer (start env)
    = (if getUserMedia env then [micSource] else [])
      ++ match getDisplayMedia env with
         | DisplayWithAudio => [displaySource]
         | DisplayRejected | DisplayWithoutAudio => []
         end.
Proof.
  split; [apply start_socket|]. by destruct env as [[] [] []].
Qed.

(** Property X11.  [start()] leaves no capture running without a
    session: when it ends without a socket, whether for want of a source
    or because the set-up threw, no track of the microphone or of the
    shared stream is live. *)
Theorem X11_no_live_track_without_socket (env : environment) :
  wsRef (start env) = None →
  micTracks (start env) ≠ Live ∧ displayTracks (start env) ≠ Live.
Proof. by destruct env as [[] [] []]. Qed.

Lemma X11_no_live_track_without_socket_witness :
  micTracks (start {| getUserMedia := true;
                      getDisplayMedia := DisplayWithAudio;
                      setup := NodeThrows |}) ≠ Live
  ∧ displayTracks (start {| getUserMedia := true;
                           getDisplayMedia := DisplayWithAudio;
                           setup := NodeThrows |}) ≠ Live.
Proof.
  apply (X11_no_live_track_without_socket
           {| getUserMedia := true; getDisplayMedia := DisplayWithAudio;
              setup := NodeThrows |}).
  reflexivity.
Defined.

(** Property X12.  A click on Start Interview hides the setup form and
    raises no alert of its own exactly when both names are non-empty; it
    ends with a socket exactly when, besides, [start()] found a source
    and set up the worklet.  So with both names given and no socket the
    form is gone all the same. *)
Theorem X12_click_starts_with_both_names
    (env : environment) (sp : speakers) :
  (showSetup (onClick env sp) = false
   ↔ panelist sp ≠ "" ∧ candidate sp ≠ "")
  ∧ (alert (onClick env sp) = None
     ↔ panelist sp ≠ "" ∧ candidate sp ≠ "")
  ∧ ((∃ s, session (onClick env sp) = Some s ∧ is_Some (wsRef s))
     ↔ (panelist sp ≠ "" ∧ candidate sp ≠ "")
       ∧ (getUserMedia env = true ∨ getDisplayMedia env = DisplayWithAudio)
       ∧ setup env = SetupDone).
Proof.
  unfold onClick.
  destruct (String.eqb_spec (panelist sp) ""),
    (String.eqb_spec (candidate sp) ""); cbn; split_and!; split;
    try done; try (by intros [? ?]); try (by intros (? & [=] & _));
    try (by intros [[? ?] _]).
  - intros (s & [= <-] & Hs). by apply start_socket in Hs.
  - intros (_ & Hs). exists (start env). split; [done|].
    by apply start_socket.
Qed.

Example names_given_but_no_source :
  onClick {| getUserMedia := false; getDisplayMedia := DisplayWithoutAudio;
             setup := SetupDone |}
          {| panelist := "Ann"; candidate := "Bob" |}
  = {| showSetup := false; alert := None;
       session :=
         Some {| alerts :=
                   ["Could not access microphone. Transcription might be limited.";
                    "Please tick 'Share tab audio' before clicking Share."];
                 micTracks := NoTracks; displayTracks := Stopped;
                 mixer := []; procRef := false; wsRef := None |} |}.
Proof. reflexivity. Qed.

Lemma handle_all_app sp ws es es' :
  handle_all sp ws (es ++ es') = handle_all sp (handle_all sp ws es) es'.
Proof. apply fold_left_app. Qed.

Lemma handle_head sp ws e :
  (sent ws = [] ∧ readyState ws ≠ 1)
  ∨ head (sent ws) = Some (setup_message sp) →
  (sent (handle sp ws e) = [] ∧ readyState (handle sp ws e) ≠ 1)
  ∨ head (sent (handle sp ws e)) = Some (setup_message sp).
Proof.
  intros H. destruct e as [| | |data]; cbn.
  - right. destruct H as [[-> _]|H]; [done|].
    by destruct (sent ws).
  - destruct H as [[H _]|H]; [by left|by right].
  - destruct H as [[H _]|H]; [by left|by right].
  - unfold port_onmessage.
    destruct (Nat.eqb_spec (readyState ws) 1) as [E|E]; [|done].
    destruct H as [[_ H]|H]; [done|]. right. cbn.
    by destruct (sent ws).
Qed.

Lemma handle_all_head sp es ws :
  (sent ws = [] ∧ readyState ws ≠ 1)
  ∨ head (sent ws) = Some (setup_message sp) →
  (sent (handle_all sp ws es) = [] ∧ readyState (handle_all sp ws es) ≠ 1)
  ∨ head (sent (handle_all sp ws es)) = Some (setup_message sp).
Proof.
  revert ws. induction es as [|e es IH]; intros ws H; [done|].
  apply IH. by apply handle_head.
Qed.

Lemma handle_all_unopened sp es ws :
  readyState ws ≠ 1 → Forall (λ e, e ≠ Opened) es →
  sent (handle_all sp ws es) = sent ws
  ∧ readyState (handle_all sp ws es) ≠ 1.
Proof.
  intros Hr H. revert ws Hr.
  induction H as [|e es He _ IH]; intros ws Hr; [done|].
  cbn [handle_all fold_left]. fold (handle_all sp (handle sp ws e) es).
  destruct e as [| | |data]; [done| | |].
  - by apply (IH {| readyState := 2; sent := sent ws |}).
  - by apply (IH {| readyState := 3; sent := sent ws |}).
  - cbn [handle]. unfold port_onmessage.
    destruct (Nat.eqb_spec (readyState ws) 1) as [E|E]; [done|].
    by apply IH.
Qed.

(** Property X8.  On the socket of a session the setup message comes
    first: whatever the order in which the socket opens, closes and
    frames arrive, either nothing has been sent or the first message sent
    is the setup message; and nothing is sent before the socket opens,
    the frames that arrive until then being dropped. *)
Theorem X8_setup_message_is_sent_first
    (env : environment) (sp : speakers) (ws : websocket)
    (es : list socket_event) :
  wsRef (start env) = Some ws →
  (sent (handle_all sp ws es) = []
   ∨ ∃ rest, sent (handle_all sp ws es) = setup_message sp :: rest)
  ∧ (Forall (λ e, e ≠ Opened) es → sent (handle_all sp ws es) = []).
Proof.
  intros ->%start_socket_fresh. split.
  - destruct (handle_all_head sp es {| readyState := 0; sent := [] |})
      as [[H _]|H]; [by left|by left|].
    right. destruct (sent (handle_all _ _ _)) as [|m rest]; [done|].
    injection H as ->. by exists rest.
  - intros H.
    by destruct (handle_all_unopened sp es {| readyState := 0; sent := [] |})
      as [-> _].
Qed.

Lemma X8_setup_message_is_sent_first_witness :
  (sent (handle_all {| panelist := "Ann"; candidate := "Bob" |}
           {| readyState := 0; sent := [] |}
           [Posted {| AudioProcessor.type := "audio";
                      AudioProcessor.source := "mic";
                      AudioProcessor.audio := [1; 2]%Z |};
            Opened;
            Posted {| AudioProcessor.type := "audio";
                      AudioProcessor.source := "mic";
                      AudioProcessor.audio := [3; 4]%Z |}]) = []
   ∨ ∃ rest,
       sent (handle_all {| panelist := "Ann"; candidate := "Bob" |}
               {| readyState := 0; sent := [] |}
               [Posted {| AudioProcessor.type := "audio";
                          AudioProcessor.source := "mic";
                          AudioProcessor.audio := [1; 2]%Z |};
                Opened;
                Posted {| AudioProcessor.type := "audio";
                          AudioProcessor.source := "mic";
                          AudioProcessor.audio := [3; 4]%Z |}])
       = setup_message {| panelist := "Ann"; candidate := "Bob" |} :: rest)
  ∧ (Forall (λ e, e ≠ Opened)
       [Posted {| AudioProcessor.type := "audio";
                  AudioProcessor.source := "mic";
                  AudioProcessor.audio := [1; 2]%Z |};
        Opened;
        Posted {| AudioProcessor.type := "audio";
                  AudioProcessor.source := "mic";
                  AudioProcessor.audio := [3; 4]%Z |}] →
     sent (handle_all {| panelist := "Ann"; candidate := "Bob" |}
             {| readyState := 0; sent := [] |}
             [Posted {| AudioProcessor.type := "audio";
                        AudioProcessor.source := "mic";
                        AudioProcessor.audio := [1; 2]%Z |};
              Opened;
              Posted {| AudioProcessor.type := "audio";
                        AudioProcessor.source := "mic";
                        AudioProcessor.audio := [3; 4]%Z |}]) = []).
Proof.
  apply (X8_setup_message_is_sent_first
           {| getUserMedia := true; getDisplayMedia := DisplayWithAudio;
              setup := SetupDone |}).
  reflexivity.
Defined.

Example frame_then_open_then_frame :
  sent (handle_all {| panelist := "Ann"; candidate := "Bob" |}
          {| readyState := 0; sent := [] |}
          [Posted {| AudioProcessor.type := "audio";
                     AudioProcessor.source := "mic";
                     AudioProcessor.audio := [1; 2]%Z |};
           Opened;
           Posted {| AudioProcessor.type := "audio";
                     AudioProcessor.source := "mic";
                     AudioProcessor.audio := [3; 4]%Z |}])
  = [setup_message {| panelist := "Ann"; candidate := "Bob" |};
     {[ "type" := VStr "audio"; "source" := VStr "mic";
        "data" := VObj ∅ ]}].
Proof. reflexivity. Qed.

Lemma close_not_open ws :
  readyState (close ws) ≠ 1 ∧ sent (close ws) = sent ws.
Proof.
  unfold close.
  destruct (Nat.eqb_spec (readyState ws) 2) as [E|E]; cbn; [by rewrite E|].
  destruct (Nat.eqb_spec (readyState ws) 3) as [E'|E']; cbn; [|done].
  by rewrite E'.
Qed.

(** Property X9.  After [stop()] nothing more is sent: the socket of the
    session is closing or closed, and whatever frames the worklet still
    delivers, what has been sent stays as it was. *)
Theorem X9_nothing_is_sent_after_stop
    (s : started) (ws : websocket) (sp : speakers)
    (es : list socket_event) :
  wsRef s = Some ws → Forall (λ e, e ≠ Opened) es →
  ∃ ws', wsRef (stop s) = Some ws'
         ∧ sent (handle_all sp ws' es) = sent ws
         ∧ readyState (handle_all sp ws' es) ≠ 1.
Proof.
  intros Hw He. exists (close ws). cbn. rewrite Hw. split; [done|].
  destruct (close_not_open ws) as [Hr Hs].
  destruct (handle_all_unopened sp es (close ws) Hr He) as [-> H].
  by rewrite Hs.
Qed.

Lemma X9_nothing_is_sent_after_stop_witness :
  ∃ ws',
    wsRef (stop {| alerts := []; micTracks := Live; displayTracks := Live;
                   mixer := [micSource; displaySource]; procRef := true;
                   wsRef := Some {| readyState := 1;
                                    sent := [setup_message
                                               {| panelist := "Ann";
                                                  candidate := "Bob" |}] |} |})
    = Some ws'
    ∧ sent (handle_all {| panelist := "Ann"; candidate := "Bob" |} ws'
              [Posted {| AudioProcessor.type := "audio";
                         AudioProcessor.source := "mic";
                         AudioProcessor.audio := [1; 2]%Z |};
               Closed;
               Posted {| AudioProcessor.type := "audio";
                         AudioProcessor.source := "mic";
                         AudioProcessor.audio := [3; 4]%Z |}])
      = sent {| readyState := 1;
                sent := [setup_message
                           {| panelist := "Ann"; candidate := "Bob" |}] |}
    ∧ readyState
        (handle_all {| panelist := "Ann"; candidate := "Bob" |} ws'
           [Posted {| AudioProcessor.type := "audio";
                      AudioProcessor.source := "mic";
                      AudioProcessor.audio := [1; 2]%Z |};
            Closed;
            Posted {| AudioProcessor.type := "audio";
                      AudioProcessor.source := "mic";
                      AudioProcessor.audio := [3; 4]%Z |}])
      ≠ 1.
Proof.
  apply (X9_nothing_is_sent_after_stop
           {| alerts := []; micTracks := Live; displayTracks := Live;
              mixer := [micSource; displaySource]; procRef := true;
              wsRef := Some {| readyState := 1;
                               sent := [setup_message
                                          {| panelist := "Ann";
                                             candidate := "Bob" |}] |} |}).
  - reflexivity.
  - by repeat constructor.
Defined.

End LifeCycle.

(** * Properties of the summary panel *)
Section SummaryPanel.
Import App Session.

Lemma split_newline_cons text :
  ∃ first others, split_newline text = first :: others.
Proof.
  destruct text as [|c rest]; cbn; [by eexists _, _|].
  destruct (Ascii.eqb c line_feed); [by eexists _, _|].
  destruct (split_newline rest); by eexists _, _.
Qed.

Lemma join_newline_cons c first others :
  join_newline (String c first :: others)
  = String c (join_newline (first :: others)).
Proof. by destruct others. Qed.

Lemma join_split text : join_newline (split_newline text) = text.
Proof.
  induction text as [|c rest IH]; [done|]. cbn [split_newline].
  destruct (split_newline_cons rest) as (first & others & E).
  rewrite E in *.
  destruct (Ascii.eqb_spec c line_feed) as [->|_].
  - change (join_newline (EmptyString :: first :: others))
      with (String line_feed (join_newline (first :: others))).
    by rewrite IH.
  - by rewrite join_newline_cons, IH.
Qed.

Lemma length_split text :
  length (split_newline text) = S (newlines text).
Proof.
  induction text as [|c rest IH]; [done|]. cbn [split_newline newlines].
  destruct (split_newline_cons rest) as (first & others & E).
  rewrite E in *.
  destruct (Ascii.eqb c line_feed); cbn in *; lia.
Qed.

Lemma split_no_newline text :
  Forall (λ p, newlines p = 0) (split_newline text).
Proof.
  induction text as [|c rest IH]; [by repeat constructor|].
  cbn [split_newline].
  destruct (split_newline_cons rest) as (first & others & E).
  rewrite E in *. inversion IH as [|? ? Hf Ho]; subst.
  destruct (Ascii.eqb c line_feed) eqn:Ec; [by repeat constructor|].
  constructor; [|done]. cbn [newlines]. by rewrite Ec.
Qed.

(** Property X13.  The paragraphs of a summary are its text cut at the
    line feeds: joined by line feeds they give the text back, there is
    one more of them than line feeds in the text, and none holds a line
    feed.  In particular an empty text gives one empty paragraph. *)
Theorem X13_paragraphs_give_the_text_back (text : string) :
  join_newline (split_newline text) = text
  ∧ length (split_newline text) = S (newlines text)
  ∧ Forall (λ p, newlines p = 0) (split_newline text).
Proof.
  split; [apply join_split|]. split; [apply length_split|].
  apply split_no_newline.
Qed.

Example paragraphs_of_a_summary :
  split_newline
    (String.append "Strong on design."
       (String line_feed (String line_feed "Weak on testing.")))
  = ["Strong on design."; ""; "Weak on testing."]
  ∧ split_newline "" = [""].
Proof. done. Qed.

(** Property X14.  The panel shows the latest summary event: its time
    stamp and the paragraphs of its text when the text is a string, and
    the component throws a [TypeError] when the text is missing or is
    anything but a string, whatever messages without a summary came
    after the event. *)
Theorem X14_panel_shows_latest_summary_or_throws
    (st : state) (earlier later : list obj) (data : obj) :
  type_is data "summary" = true → summaries later = [] →
  summary_panel (currentSummary (receive st (earlier ++ [data] ++ later)))
  = match data !! "text" with
    | Some (VStr text) => Summary (data !! "timestamp") (split_newline text)
    | _ => TypeError
    end.
Proof.
  intros Hd Hl. rewrite receive_last_summary.
  unfold summaries in *. rewrite !List.filter_app, Hl, app_nil_r.
  cbn [List.filter]. by rewrite Hd, last_snoc.
Qed.

Lemma X14_panel_shows_latest_summary_or_throws_witness :
  summary_panel
    (currentSummary
       (receive initial
          ([summary "First half"]
           ++ [ {[ "type" := VStr "summary";
                   "timestamp" := VStr "10:01:00" ]} ]
           ++ [result false "So"])))
  = TypeError.
Proof.
  exact (X14_panel_shows_latest_summary_or_throws initial
           [summary "First half"] [result false "So"]
           {[ "type" := VStr "summary"; "timestamp" := VStr "10:01:00" ]}
           eq_refl eq_refl).
Defined.

Example panel_before_the_first_summary :
  summary_panel (currentSummary (receive initial [result false "So"]))
  = Waiting.
Proof. reflexivity. Qed.

End SummaryPanel.

(** * The worklet and the socket together *)
Section EndToEnd.
Import JSNumber AudioProcessor App Session.

Lemma handle_all_posted sp ws frames :
  readyState ws = 1 →
  handle_all sp ws (map Posted frames)
  = {| readyState := 1; sent := sent ws ++ map audio_message frames |}.
Proof.
  revert ws. induction frames as [|f frames IH]; intros [rs out] H;
    cbn in H; subst.
  - cbn. by rewrite app_nil_r.
  - cbn [map handle_all fold_left handle].
    rewrite port_onmessage_open by done.
    fold (handle_all sp
            {| readyState := 1; sent := sent {| readyState := 1; sent := out |}
                                        ++ [audio_message f] |}
            (map Posted frames)).
    rewrite IH by done. cbn. by rewrite <- app_assoc.
Qed.

Lemma audio_messages_of_mic_frames frames :
  Forall (λ m, AudioProcessor.source m = "mic") frames →
  map audio_message frames
  = replicate (length frames)
      ({[ "type" := VStr "audio"; "source" := VStr "mic";
          "data" := VObj ∅ ]} : obj).
Proof.
  induction 1 as [|f frames Hf _ IH]; [done|].
  cbn [map length replicate]. rewrite IH. f_equal.
  unfold audio_message. by rewrite Hf.
Qed.

(** Property X15.  A session whose socket opens before the first frame
    is posted sends the setup message and then one message for every
    4096 samples ingested; each of these messages is the type ["audio"],
    the tag ['mic'] and an empty [data], so that what is sent depends on
    the number of samples ingested and not on the samples.  The worklet
    frames behind the messages hold 4096 PCM samples each; the samples of
    an incomplete last frame give no message. *)
Theorem X15_open_session_sends_setup_then_frames
    (env : environment) (sp : speakers) (ws : websocket)
    (calls : list (list (list (list number)))) :
  wsRef (start env) = Some ws →
  sent (handle_all sp ws (Opened :: map Posted (run new calls).2))
  = setup_message sp
    :: replicate (length (concat (map ingested calls)) / 4096)
         ({[ "type" := VStr "audio"; "source" := VStr "mic";
             "data" := VObj ∅ ]} : obj)
  ∧ length (run new calls).2 = length (concat (map ingested calls)) / 4096
  ∧ Forall (λ m, AudioProcessor.source m = "mic" ∧ length (audio m) = 4096)
      (run new calls).2.
Proof.
  intros ->%start_socket_fresh.
  cbn [handle_all fold_left handle].
  fold (handle_all sp
          (onopen sp {| readyState := 1;
                        sent := sent {| readyState := 0; sent := [] |} |})
          (map Posted (run new calls).2)).
  rewrite handle_all_posted by done. cbn [sent onopen app].
  assert (framed 4096 (concat (map ingested calls)) (run new calls)) as H
    by apply (run_framed 4096 calls [] (new, []) new_framed).
  destruct (framed_counts _ _ _ H) as (Ha & _ & Hd).
  destruct H as (_ & _ & Hi & _).
  assert (Forall (λ m, AudioProcessor.source m = "mic") (run new calls).2)
    as Hm by (rewrite run_as_process; apply process_source).
  assert (length (run new calls).2
          = length (concat (map ingested calls)) / 4096) as Hn
    by by apply (Nat.div_unique _ _ _ (bufferIndex (run new calls).1)).
  split_and!.
  - by rewrite audio_messages_of_mic_frames, Hn.
  - done.
  - by apply Forall_and.
Qed.

Lemma X15_open_session_sends_setup_then_frames_witness :
  sent (handle_all {| panelist := "Ann"; candidate := "Bob" |}
          {| readyState := 0; sent := [] |}
          (Opened
           :: map Posted
                (run new [[[replicate 4097 (Fin (1 # 2))]]]).2))
  = setup_message {| panelist := "Ann"; candidate := "Bob" |}
    :: replicate
         (length (concat (map ingested [[[replicate 4097 (Fin (1 # 2))]]]))
          / 4096)
         ({[ "type" := VStr "audio"; "source" := VStr "mic";
             "data" := VObj ∅ ]} : obj)
  ∧ length (run new [[[replicate 4097 (Fin (1 # 2))]]]).2
    = length (concat (map ingested [[[replicate 4097 (Fin (1 # 2))]]]))
      / 4096
  ∧ Forall (λ m, AudioProcessor.source m = "mic" ∧ length (audio m) = 4096)
      (run new [[[replicate 4097 (Fin (1 # 2))]]]).2.
Proof.
  exact (X15_open_session_sends_setup_then_frames
           {| getUserMedia := true; getDisplayMedia := DisplayRejected;
              setup := SetupDone |}
           {| panelist := "Ann"; candidate := "Bob" |}
           {| readyState := 0; sent := [] |}
           [[[replicate 4097 (Fin (1 # 2))]]] eq_refl).
Defined.

End EndToEnd.

(** * The worklet from any state *)
Section AnyState.
Import JSNumber AudioProcessor.

(** The state is sound, and the messages posted and the samples waiting
    account for the samples written. *)
Lemma fill_count src size before acc x :
  bufferSize acc.1 = size ∧ length (buffer acc.1) = size
  ∧ bufferIndex acc.1 < size
  ∧ size * length acc.2 + bufferIndex acc.1 = before →
  bufferSize (fill src acc x).1 = size
  ∧ length (buffer (fill src acc x).1) = size
  ∧ bufferIndex (fill src acc x).1 < size
  ∧ size * length (fill src acc x).2 + bufferIndex (fill src acc x).1
    = S before.
Proof.
  destruct acc as [this posted]. cbn [fst snd].
  intros (Hs & Hl & Hi & Hc). unfold fill. cbn [fst snd]. rewrite Hs.
  destruct (Nat.eqb_spec (S (bufferIndex this)) size) as [E|E];
    cbn [fst snd bufferSize buffer bufferIndex];
    rewrite length_insert, ?length_app; cbn [length]; split_and!; lia.
Qed.

Lemma fold_fill_count src size xs before acc :
  bufferSize acc.1 = size ∧ length (buffer acc.1) = size
  ∧ bufferIndex acc.1 < size
  ∧ size * length acc.2 + bufferIndex acc.1 = before →
  bufferSize (fold_left (fill src) xs acc).1 = size
  ∧ length (buffer (fold_left (fill src) xs acc).1) = size
  ∧ bufferIndex (fold_left (fill src) xs acc).1 < size
  ∧ size * length (fold_left (fill src) xs acc).2
    + bufferIndex (fold_left (fill src) xs acc).1
    = before + length xs.
Proof.
  revert before acc. induction xs as [|x xs IH]; intros before acc H.
  - cbn [fold_left length]. by rewrite Nat.add_0_r.
  - cbn [fold_left length].
    rewrite <- Nat.add_succ_comm. by apply IH, fill_count.
Qed.

(** Property X16.  One call of [process] keeps the worklet sound from
    any sound state: the buffer keeps its size and [bufferIndex] stays
    below it, and with [i] samples waiting before the call and [n]
    ingested by it, the call posts [(i + n) / bufferSize] messages and
    leaves [(i + n) mod bufferSize] samples waiting. *)
Theorem X16_process_keeps_the_buffer_sound
    (this : t) (inputs : list (list (list number))) :
  length (buffer this) = bufferSize this →
  bufferIndex this < bufferSize this →
  bufferSize (process this inputs).1 = bufferSize this
  ∧ length (buffer (process this inputs).1) = bufferSize this
  ∧ bufferIndex (process this inputs).1 < bufferSize this
  ∧ length (process this inputs).2
    = (bufferIndex this + length (ingested inputs)) / bufferSize this
  ∧ bufferIndex (process this inputs).1
    = (bufferIndex this + length (ingested inputs)) mod bufferSize this.
Proof.
  intros Hl Hi. rewrite process_fold.
  destruct (fold_fill_count "mic" (bufferSize this) (ingested inputs)
              (bufferIndex this) (this, []))
    as (Hs & Hl' & Hi' & Hc).
  { cbn [fst snd length]. split_and!; [done..|lia]. }
  split_and!; [done..| |].
  - by apply (Nat.div_unique _ _ _
                (bufferIndex (fold_left (fill "mic") (ingested inputs)
                                (this, [])).1)).
  - by apply (Nat.mod_unique _ _
                (length (fold_left (fill "mic") (ingested inputs)
                           (this, [])).2)).
Qed.

Lemma X16_process_keeps_the_buffer_sound_witness :
  bufferSize
    (process {| bufferSize := 4096; buffer := replicate 4096 (Fin 0);
                bufferIndex := 4095 |}
             [[[Fin 1; Fin 0; Fin (-1)]]]).1 = 4096
  ∧ length
      (buffer
         (process {| bufferSize := 4096; buffer := replicate 4096 (Fin 0);
                     bufferIndex := 4095 |}
                  [[[Fin 1; Fin 0; Fin (-1)]]]).1) = 4096
  ∧ bufferIndex
      (process {| bufferSize := 4096; buffer := replicate 4096 (Fin 0);
                  bufferIndex := 4095 |}
               [[[Fin 1; Fin 0; Fin (-1)]]]).1 < 4096
  ∧ length
      (process {| bufferSize := 4096; buffer := replicate 4096 (Fin 0);
                  bufferIndex := 4095 |}
               [[[Fin 1; Fin 0; Fin (-1)]]]).2
    = (4095 + length (ingested [[[Fin 1; Fin 0; Fin (-1)]]])) / 4096
  ∧ bufferIndex
      (process {| bufferSize := 4096; buffer := replicate 4096 (Fin 0);
                  bufferIndex := 4095 |}
               [[[Fin 1; Fin 0; Fin (-1)]]]).1
    = (4095 + length (ingested [[[Fin 1; Fin 0; Fin (-1)]]])) mod 4096.
Proof.
  apply (X16_process_keeps_the_buffer_sound
           {| bufferSize := 4096; buffer := replicate 4096 (Fin 0);
              bufferIndex := 4095 |}
           [[[Fin 1; Fin 0; Fin (-1)]]]).
  - apply length_replicate.
  - cbn [bufferIndex bufferSize]. lia.
Defined.

Example call_across_a_frame_boundary :
  length
    (process {| bufferSize := 4096; buffer := replicate 4096 (Fin 0);
                bufferIndex := 4095 |}
             [[[Fin 1; Fin 0; Fin (-1)]]]).2 = 1
  ∧ bufferIndex
      (process {| bufferSize := 4096; buffer := replicate 4096 (Fin 0);
                  bufferIndex := 4095 |}
               [[[Fin 1; Fin 0; Fin (-1)]]]).1 = 2.
Proof. by vm_compute. Qed.

End AnyState.
